(** * Confluent Schema Registry Protobuf wire format

    A shallow embedding of [confluent_kafka/schema_registry/protobuf.py]:
    the varint codec of the message index, the computation of a message
    descriptor's index, the recursive resolution of schema references, and
    the serializer and deserializer built on them.

    Python integers are unbounded, so they are modelled by [Z]; [<<], [>>],
    [&], [|], [^] and [~] are [Z.shiftl], [Z.shiftr], [Z.land], [Z.lor],
    [Z.lxor] and [Z.lnot], which agree with Python on negative numbers
    (infinite two's complement, shifts rounding towards minus infinity).
    A [bytes] value and the contents of a [BytesIO] are a [list byte]. *)

From Stdlib Require Import ZArith Lia List Bool String Ascii.
From Stdlib.Strings Require Import Byte.
From stdpp Require Import base decidable countable strings gmap.

Import ListNotations.
Set Warnings "-register-all".
Local Open Scope Z_scope.
Local Open Scope list_scope.

(** ** Exceptions and outcomes *)

(** The exceptions the module raises, each with the message it is built
    with.  [StructError] is [struct.error], [StoreError] stands for whatever
    the schema registry client raises. *)
Inductive exn : Type :=
| RuntimeError (msg : string)
| ValueError (msg : string)
| EOFError (msg : string)
| DecodeError (msg : string)
| SerializationError (msg : string)
| AssertionError
| KeyError (key : string)
| StructError (msg : string)
| StoreError (msg : string).

(** What running a piece of the program gives: a value, a raised
    exception, or no result at all because a loop never exits. *)
Inductive outcome (A : Type) : Type :=
| Ret (a : A)
| Raise (e : exn)
| Diverges.

Arguments Ret {A} a.
Arguments Raise {A} e.
Arguments Diverges {A}.

Definition bind {A B : Type} (m : outcome A) (k : A -> outcome B) : outcome B :=
  match m with
  | Ret a => k a
  | Raise e => Raise e
  | Diverges => Diverges
  end.

Declare Scope outcome_scope.
Delimit Scope outcome_scope with outcome.
Notation "'do' x <- m ;; k" := (bind m (fun x => k))
  (at level 10, x name, m at level 99, k at level 200) : outcome_scope.
Notation "'do' ' p <- m ;; k" := (bind m (fun p => k))
  (at level 10, p pattern, m at level 99, k at level 200) : outcome_scope.
Local Open Scope outcome_scope.

Definition omap {A B : Type} (f : A -> B) (m : outcome A) : outcome B :=
  do a <- m ;; Ret (f a).

(** ** Bytes *)

(** [_bytes(b)]: [bytes((b,))], a [ValueError] outside [range(256)]. *)
Definition _bytes (b : Z) : outcome byte :=
  if (0 <=? b) && (b <? 256) then
    match Byte.of_N (Z.to_N b) with
    | Some x => Ret x
    | None => Raise (ValueError "bytes must be in range(0, 256)")
    end
  else Raise (ValueError "bytes must be in range(0, 256)").

(** [ord] of a one-byte string. *)
Definition ord (b : byte) : Z := Z.of_N (Byte.to_N b).

(** The byte whose value is [z mod 256]. *)
Definition byte_of_Z (z : Z) : byte :=
  match Byte.of_N (Z.to_N (z mod 256)) with
  | Some x => x
  | None => x00
  end.

(** [struct.pack('>bI', b, i)]: a signed byte, then an unsigned 32-bit
    integer, most significant byte first.  [struct.error] when an argument
    is not an integer ([None]) or outside its format's range. *)
Definition struct_pack_bI (b : Z) (i : option Z) : outcome (list byte) :=
  match i with
  | None => Raise (StructError "required argument is not an integer")
  | Some i =>
      if (-128 <=? b) && (b <=? 127) then
        if (0 <=? i) && (i <=? 4294967295) then
          Ret [byte_of_Z b;
               byte_of_Z (Z.shiftr i 24); byte_of_Z (Z.shiftr i 16);
               byte_of_Z (Z.shiftr i 8); byte_of_Z i]
        else Raise (StructError "argument out of range")
      else Raise (StructError "byte format requires -128 <= number <= 127")
  end.

(** [struct.unpack('>bI', data)]: [data] must be exactly five bytes. *)
Definition struct_unpack_bI (data : list byte) : outcome (Z * Z) :=
  match data with
  | [b0; b1; b2; b3; b4] =>
      let magic := if ord b0 <? 128 then ord b0 else ord b0 - 256 in
      let schema_id :=
        Z.lor (Z.shiftl (ord b1) 24)
          (Z.lor (Z.shiftl (ord b2) 16) (Z.lor (Z.shiftl (ord b3) 8) (ord b4))) in
      Ret (magic, schema_id)
  | _ => Raise (StructError "unpack requires a buffer of 5 bytes")
  end.

(** [base64.standard_b64encode(data).decode('ascii')]. *)
Module Base64.

Definition alphabet : string :=
  "ABCDEFGHIJKLMNOPQRSTUVWXYZabcdefghijklmnopqrstuvwxyz0123456789+/".

Definition digit (n : N) : ascii :=
  match String.get (N.to_nat n) alphabet with
  | Some c => c
  | None => "="%char
  end.

Fixpoint standard_b64encode (data : list byte) : string :=
  match data with
  | [] => EmptyString
  | [a] =>
      let a := Byte.to_N a in
      String (digit (a / 4)) (String (digit (a mod 4 * 16)) "==")
  | [a; b] =>
      let a := Byte.to_N a in
      let b := Byte.to_N b in
      String (digit (a / 4))
        (String (digit (a mod 4 * 16 + b / 16))
           (String (digit (b mod 16 * 4)) "="))
  | a :: b :: c :: rest =>
      let a := Byte.to_N a in
      let b := Byte.to_N b in
      let c := Byte.to_N c in
      String (digit (a / 4))
        (String (digit (a mod 4 * 16 + b / 16))
           (String (digit (b mod 16 * 4 + c / 64))
              (String (digit (c mod 64)) (standard_b64encode rest))))
  end%N.

End Base64.

(** ** Descriptors and messages

    The parts of the protobuf runtime's objects that the module reads. *)

(** A [FileDescriptor]: its [name], its [serialized_pb], its
    [dependencies] in declared order, and the keys of
    [message_types_by_name] in the order iteration yields them. *)
Inductive FileDescriptor : Type :=
  mkFileDescriptor {
    fd_name : string;
    fd_serialized_pb : list byte;
    fd_dependencies : list FileDescriptor;
    fd_message_types_by_name : list string
  }.

(** A message [Descriptor].  Descriptor objects define no [__eq__], so
    [node == previous] compares object identities: [md_id] is the identity
    of the object, and [md_nested_types] lists the identities of the
    objects in [nested_types], in order.  [md_containing_type] is the
    enclosing descriptor, [None] at top level. *)
Inductive MessageDescriptor : Type :=
  mkMessageDescriptor {
    md_id : nat;
    md_name : string;
    md_full_name : string;
    md_containing_type : option MessageDescriptor;
    md_nested_types : list nat;
    md_file : FileDescriptor
  }.

(** A generated message class: its identity and its [DESCRIPTOR]. *)
Record MessageType : Type := mkMessageType {
  class_id : nat;
  DESCRIPTOR : MessageDescriptor
}.

(** A message instance: its class and what [SerializeToString()] returns. *)
Record Message : Type := mkMessage {
  msg_type : MessageType;
  SerializeToString : list byte
}.

(** [isinstance(message, cls)] for generated message classes. *)
Definition isinstance (message : Message) (cls : MessageType) : bool :=
  Nat.eqb (class_id (msg_type message)) (class_id cls).

(** The first [for] loop of [_create_msg_index]: the position of
    [previous] among the nested types is pushed on the left of [msg_idx] and
    [found] is set; otherwise both are left as they were. *)
Fixpoint find_nested (nested_types : list nat) (previous : nat) (idx : Z)
    (msg_idx : list Z) (found : bool) : list Z * bool :=
  match nested_types with
  | [] => (msg_idx, found)
  | node :: rest =>
      if Nat.eqb node previous then (idx :: msg_idx, true)
      else find_nested rest previous (idx + 1) msg_idx found
  end.

(** The [while current.containing_type is not None] loop; [found] is
    carried from one iteration to the next, as in the source. *)
Fixpoint walk_up (current : MessageDescriptor) (msg_idx : list Z) (found : bool)
  : outcome (MessageDescriptor * list Z) :=
  match current with
  | mkMessageDescriptor id _ _ containing_type _ _ =>
      match containing_type with
      | None => Ret (current, msg_idx)
      | Some parent =>
          let '(msg_idx, found) :=
            find_nested (md_nested_types parent) id 0 msg_idx found in
          if negb found then Raise (ValueError "Nested MessageDescriptor not found")
          else walk_up parent msg_idx found
      end
  end.

(** The second [for] loop: the position of the root's name among the
    file's message type names. *)
Fixpoint find_root (names : list string) (name : string) (idx : Z)
    (msg_idx : list Z) (found : bool) : list Z * bool :=
  match names with
  | [] => (msg_idx, found)
  | msg_type_name :: rest =>
      if String.eqb msg_type_name name then (idx :: msg_idx, true)
      else find_root rest name (idx + 1) msg_idx found
  end.

(** [_create_msg_index(msg_desc)]. *)
Definition _create_msg_index (msg_desc : MessageDescriptor) : outcome (list Z) :=
  do '(current, msg_idx) <- walk_up msg_desc [] false ;;
  let '(msg_idx, found) :=
    find_root (fd_message_types_by_name (md_file msg_desc)) (md_name current)
      0 msg_idx false in
  if negb found then Raise (ValueError "MessageDescriptor not found in file")
  else Ret msg_idx.

(** [_schema_to_str(proto_file)]. *)
Definition _schema_to_str (proto_file : FileDescriptor) : string :=
  Base64.standard_b64encode (fd_serialized_pb proto_file).

(** ** The schema registry client

    The client lives in [schema_registry_client.py]; the serializer only
    builds its value classes and calls three of its methods. *)

(** Modelled from the spec: [SchemaReference], the triple (dependency file
    name, subject, registered version). *)
Record SchemaReference : Type := mkSchemaReference {
  ref_name : string;
  ref_subject : string;
  ref_version : Z
}.

(** Modelled from the spec: [Schema], the serialized schema, its type tag
    and its list of references (empty when not given). *)
Record Schema : Type := mkSchema {
  schema_str : string;
  schema_type : string;
  references : list SchemaReference
}.

(** Modelled from the spec: what [lookup_schema] and [get_latest_version]
    return, an identifier and a version. *)
Record RegisteredSchema : Type := mkRegisteredSchema {
  schema_id : Z;
  version : Z
}.

(** Modelled from the spec: the three store operations, over a store state
    [R] left abstract.  Each returns its outcome and the state after it. *)
Record SchemaRegistryClient (R : Type) : Type := mkSchemaRegistryClient {
  register_schema : string -> Schema -> bool -> R -> outcome Z * R;
  lookup_schema : string -> Schema -> bool -> R -> outcome RegisteredSchema * R;
  get_latest_version : string -> R -> outcome RegisteredSchema * R
}.

Arguments register_schema {R}.
Arguments lookup_schema {R}.
Arguments get_latest_version {R}.

(** One call to the store, with its arguments and what it answered. *)
Inductive StoreCall : Type :=
| Call_register_schema (subject : string) (schema : Schema)
    (normalize_schemas : bool) (answer : outcome Z)
| Call_lookup_schema (subject : string) (schema : Schema)
    (normalize_schemas : bool) (answer : outcome RegisteredSchema)
| Call_get_latest_version (subject : string) (answer : outcome RegisteredSchema).

Definition call_subject (c : StoreCall) : string :=
  match c with
  | Call_register_schema subject _ _ _ => subject
  | Call_lookup_schema subject _ _ _ => subject
  | Call_get_latest_version subject _ => subject
  end.

(** The schema identifier a call answered with, if it answered. *)
Definition call_schema_id (c : StoreCall) : option Z :=
  match c with
  | Call_register_schema _ _ _ (Ret id) => Some id
  | Call_lookup_schema _ _ _ (Ret r) => Some (schema_id r)
  | Call_get_latest_version _ (Ret r) => Some (schema_id r)
  | _ => None
  end.

(** The world outside the serializer: the store and the calls made to it so
    far, oldest first. *)
Record World (R : Type) : Type := mkWorld {
  store : R;
  calls : list StoreCall
}.

Arguments mkWorld {R}.
Arguments store {R}.
Arguments calls {R}.

(** Computations that call the store. *)
Definition Store (R A : Type) : Type := World R -> outcome A * World R.

Definition sret {R A : Type} (a : A) : Store R A := fun w => (Ret a, w).

Definition sbind {R A B : Type} (m : Store R A) (k : A -> Store R B) : Store R B :=
  fun w =>
    match m w with
    | (Ret a, w') => k a w'
    | (Raise e, w') => (Raise e, w')
    | (Diverges, w') => (Diverges, w')
    end.

Declare Scope store_scope.
Delimit Scope store_scope with store.
Notation "'do' x <- m ;; k" := (sbind m (fun x => k))
  (at level 10, x name, m at level 99, k at level 200) : store_scope.

Definition call_register_schema {R : Type} (registry : SchemaRegistryClient R)
    (subject : string) (schema : Schema) (normalize_schemas : bool) : Store R Z :=
  fun w =>
    let '(answer, st) := register_schema registry subject schema normalize_schemas (store w) in
    (answer,
     mkWorld st (calls w ++ [Call_register_schema subject schema normalize_schemas answer])).

Definition call_lookup_schema {R : Type} (registry : SchemaRegistryClient R)
    (subject : string) (schema : Schema) (normalize_schemas : bool)
  : Store R RegisteredSchema :=
  fun w =>
    let '(answer, st) := lookup_schema registry subject schema normalize_schemas (store w) in
    (answer,
     mkWorld st (calls w ++ [Call_lookup_schema subject schema normalize_schemas answer])).

Definition call_get_latest_version {R : Type} (registry : SchemaRegistryClient R)
    (subject : string) : Store R RegisteredSchema :=
  fun w =>
    let '(answer, st) := get_latest_version registry subject (store w) in
    (answer, mkWorld st (calls w ++ [Call_get_latest_version subject answer])).

(** ** Configuration values *)

(** Modelled from the spec: the serialization context handed to the naming
    strategies; the class docstring names its topic and message field. *)
Record SerializationContext : Type := mkSerializationContext {
  topic : string;
  field : string
}.

(** What a naming strategy is called with: a message's full name, or a
    dependency's file descriptor. *)
Inductive strategy_arg : Type :=
| ArgName (full_name : string)
| ArgFile (file_desc : FileDescriptor).

Definition strategy : Type := SerializationContext -> strategy_arg -> string.

(** The values a configuration dictionary may hold. *)
Inductive pyval : Type :=
| VNone
| VBool (b : bool)
| VInt (z : Z)
| VStr (s : string)
| VCallable (f : strategy).

(** A [dict] with string keys, in insertion order. *)
Definition dict : Type := list (string * pyval).

Definition dict_get (key : string) (d : dict) : option pyval :=
  option_map snd (List.find (fun kv => String.eqb (fst kv) key) d).

Definition dict_contains (key : string) (d : dict) : bool :=
  match dict_get key d with Some _ => true | None => false end.

(** [d[key] = v]: in place when the key is there, at the end otherwise. *)
Fixpoint dict_set (key : string) (v : pyval) (d : dict) : dict :=
  match d with
  | [] => [(key, v)]
  | (k, x) :: rest =>
      if String.eqb k key then (k, v) :: rest else (k, x) :: dict_set key v rest
  end.

(** [d.update(other)]. *)
Definition dict_update (d other : dict) : dict :=
  List.fold_left (fun acc kv => dict_set (fst kv) (snd kv) acc) other d.

(** [d.pop(key)]: the value and the dictionary without the key. *)
Definition dict_pop (key : string) (d : dict) : outcome (pyval * dict) :=
  match dict_get key d with
  | Some v => Ret (v, List.filter (fun kv => negb (String.eqb (fst kv) key)) d)
  | None => Raise (KeyError key)
  end.

Definition dict_keys (d : dict) : list string := List.map fst d.

(** [x = conf_copy.pop(key)] followed by
    [if not isinstance(x, bool): raise ValueError(msg)]. *)
Definition pop_bool (key msg : string) (d : dict) : outcome (bool * dict) :=
  do '(v, d) <- dict_pop key d ;;
  match v with
  | VBool b => Ret (b, d)
  | _ => Raise (ValueError msg)
  end.

(** [x = conf_copy.pop(key)] followed by
    [if not callable(x): raise ValueError(msg)]. *)
Definition pop_callable (key msg : string) (d : dict) : outcome (strategy * dict) :=
  do '(v, d) <- dict_pop key d ;;
  match v with
  | VCallable f => Ret (f, d)
  | _ => Raise (ValueError msg)
  end.

(** Modelled from the spec: the magic sentinel of the wire format, imported
    from the package; the spec's concrete scenario shows it as [0x00]. *)
Definition _MAGIC_BYTE : Z := 0.

(** ** [ProtobufSerializer] *)

Module ProtobufSerializer.

(** The instance attributes listed in [__slots__]. *)
Record t (R : Type) : Type := mk {
  _auto_register : bool;
  _normalize_schemas : bool;
  _use_latest_version : bool;
  _skip_known_types : bool;
  _registry : SchemaRegistryClient R;
  _known_subjects : gset string;
  _msg_class : MessageType;
  _msg_index : list Z;
  _schema : Schema;
  _schema_id : option Z;
  _ref_reference_subject_func : strategy;
  _subject_name_func : strategy;
  _use_deprecated_format : bool
}.

Arguments mk {R}.
Arguments _auto_register {R}.
Arguments _normalize_schemas {R}.
Arguments _use_latest_version {R}.
Arguments _skip_known_types {R}.
Arguments _registry {R}.
Arguments _known_subjects {R}.
Arguments _msg_class {R}.
Arguments _msg_index {R}.
Arguments _schema {R}.
Arguments _schema_id {R}.
Arguments _ref_reference_subject_func {R}.
Arguments _subject_name_func {R}.
Arguments _use_deprecated_format {R}.

(** [self._schema_id = v]. *)
Definition set_schema_id {R : Type} (self : t R) (v : option Z) : t R :=
  mk (_auto_register self) (_normalize_schemas self) (_use_latest_version self)
    (_skip_known_types self) (_registry self) (_known_subjects self)
    (_msg_class self) (_msg_index self) (_schema self) v
    (_ref_reference_subject_func self) (_subject_name_func self)
    (_use_deprecated_format self).

(** [self._schema.references = refs]. *)
Definition set_schema_references {R : Type} (self : t R)
    (refs : list SchemaReference) : t R :=
  mk (_auto_register self) (_normalize_schemas self) (_use_latest_version self)
    (_skip_known_types self) (_registry self) (_known_subjects self)
    (_msg_class self) (_msg_index self)
    (mkSchema (schema_str (_schema self)) (schema_type (_schema self)) refs)
    (_schema_id self)
    (_ref_reference_subject_func self) (_subject_name_func self)
    (_use_deprecated_format self).

(** [self._known_subjects.add(subject)]. *)
Definition add_known_subject {R : Type} (self : t R) (subject : string) : t R :=
  mk (_auto_register self) (_normalize_schemas self) (_use_latest_version self)
    (_skip_known_types self) (_registry self) (_known_subjects self ∪ {[ subject ]})
    (_msg_class self) (_msg_index self) (_schema self) (_schema_id self)
    (_ref_reference_subject_func self) (_subject_name_func self)
    (_use_deprecated_format self).

(** The [while] loop of [_write_varint] and the write that follows it.
    [fuel] bounds the number of times the loop condition is tested; running
    out of it is [Diverges]. *)
Fixpoint _write_varint_loop (fuel : nat) (buf : list byte) (val : Z)
  : outcome (list byte) :=
  match fuel with
  | O => Diverges
  | S fuel' =>
      if negb (Z.land val (Z.lnot 127) =? 0) then
        do b <- _bytes (Z.lor (Z.land val 127) 128) ;;
        _write_varint_loop fuel' (buf ++ [b]) (Z.shiftr val 7)
      else
        do b <- _bytes val ;;
        Ret (buf ++ [b])
  end.

(** Enough tests of the loop condition for every value on which the loop
    exits: one per bit is more than one per group of seven.  On the other
    values no fuel is enough ([_write_varint_loop_fuel] and
    [_write_varint_loop_negative] below). *)
Definition varint_fuel (val : Z) : nat := S (Z.to_nat (Z.log2 val)).

(** [_write_varint(buf, val, zigzag)]; the result is the buffer after the
    writes. *)
Definition _write_varint (buf : list byte) (val : Z) (zigzag : bool)
  : outcome (list byte) :=
  let val := if zigzag then Z.lxor (Z.shiftl val 1) (Z.shiftr val 63) else val in
  _write_varint_loop (varint_fuel val) buf val.

(** The [for value in ints] loop of [_encode_varints]. *)
Fixpoint _encode_varints_loop (buf : list byte) (ints : list Z) (zigzag : bool)
  : outcome (list byte) :=
  match ints with
  | [] => Ret buf
  | value :: rest =>
      do buf <- _write_varint buf value zigzag ;;
      _encode_varints_loop buf rest zigzag
  end.

(** [_encode_varints(buf, ints, zigzag)]. *)
Definition _encode_varints (buf : list byte) (ints : list Z) (zigzag : bool)
  : outcome (list byte) :=
  if (Z.of_nat (List.length ints) >? 0) then
    if decide (ints = [0]) then
      do b <- _bytes 0 ;;
      Ret (buf ++ [b])
    else
      do buf <- _write_varint buf (Z.of_nat (List.length ints)) zigzag ;;
      _encode_varints_loop buf ints zigzag
  else Raise AssertionError.

Section Methods.
Context {R : Type}.

(** The two strategies imported from the package, defaults of
    [subject.name.strategy] and [reference.subject.name.strategy]. *)
Variables topic_subject_name_strategy reference_subject_name_strategy : strategy.

Definition _default_conf : dict :=
  [ ("auto.register.schemas", VBool true);
    ("normalize.schemas", VBool false);
    ("use.latest.version", VBool false);
    ("skip.known.types", VBool false);
    ("subject.name.strategy", VCallable topic_subject_name_strategy);
    ("reference.subject.name.strategy", VCallable reference_subject_name_strategy);
    ("use.deprecated.format", VBool false) ].

Definition flag_not_set : string :=
  "ProtobufSerializer: the 'use.deprecated.format' configuration property must be explicitly set due to backward incompatibility with older confluent-kafka-python Protobuf producers and consumers. See the release notes for more details".

(** [__init__(self, msg_type, schema_registry_client, conf)]; the warning
    emitted when the deprecated format is selected is not modelled. *)
Definition __init__ (msg_type : MessageType)
    (schema_registry_client : SchemaRegistryClient R) (conf : option dict)
  : outcome (t R) :=
  if match conf with
     | None => true
     | Some c => negb (dict_contains "use.deprecated.format" c)
     end
  then Raise (RuntimeError flag_not_set)
  else
    let conf_copy := _default_conf in
    let conf_copy :=
      match conf with Some c => dict_update conf_copy c | None => conf_copy end in
    do '(auto_register, conf_copy) <-
      pop_bool "auto.register.schemas"
        "auto.register.schemas must be a boolean value" conf_copy ;;
    do '(normalize_schemas, conf_copy) <-
      pop_bool "normalize.schemas"
        "normalize.schemas must be a boolean value" conf_copy ;;
    do '(use_latest_version, conf_copy) <-
      pop_bool "use.latest.version"
        "use.latest.version must be a boolean value" conf_copy ;;
    if use_latest_version && auto_register then
      Raise (ValueError
               "cannot enable both use.latest.version and auto.register.schemas")
    else
      do '(skip_known_types, conf_copy) <-
        pop_bool "skip.known.types"
          "skip.known.types must be a boolean value" conf_copy ;;
      do '(use_deprecated_format, conf_copy) <-
        pop_bool "use.deprecated.format"
          "use.deprecated.format must be a boolean value" conf_copy ;;
      do '(subject_name_func, conf_copy) <-
        pop_callable "subject.name.strategy"
          "subject.name.strategy must be callable" conf_copy ;;
      do '(ref_reference_subject_func, conf_copy) <-
        pop_callable "reference.subject.name.strategy"
          "subject.name.strategy must be callable" conf_copy ;;
      if (Z.of_nat (List.length conf_copy) >? 0) then
        Raise (ValueError
                 ("Unrecognized properties: "
                  ++ String.concat ", " (dict_keys conf_copy)))
      else
        let descriptor := DESCRIPTOR msg_type in
        do msg_index <- _create_msg_index descriptor ;;
        Ret (mk auto_register normalize_schemas use_latest_version
               skip_known_types schema_registry_client ∅ msg_type msg_index
               (mkSchema (_schema_to_str (md_file descriptor)) "PROTOBUF" [])
               None ref_reference_subject_func subject_name_func
               use_deprecated_format).

(** [_resolve_dependencies(self, ctx, file_desc)]; the inner function is
    the [for dep in file_desc.dependencies] loop. *)
Fixpoint _resolve_dependencies (self : t R) (ctx : SerializationContext)
    (file_desc : FileDescriptor) {struct file_desc}
  : Store R (list SchemaReference) :=
  match file_desc with
  | mkFileDescriptor _ _ dependencies _ =>
      (fix for_dep (deps : list FileDescriptor) (schema_refs : list SchemaReference)
           {struct deps} : Store R (list SchemaReference) :=
         match deps with
         | [] => sret schema_refs
         | dep :: rest =>
             if _skip_known_types self
                && String.prefix "google/protobuf/" (fd_name dep)
             then for_dep rest schema_refs
             else
               (do dep_refs <- _resolve_dependencies self ctx dep ;;
                let subject := _ref_reference_subject_func self ctx (ArgFile dep) in
                let schema := mkSchema (_schema_to_str dep) "PROTOBUF" dep_refs in
                do _ <- (if _auto_register self
                         then do _ <- call_register_schema (_registry self)
                                        subject schema false ;; sret tt
                         else sret tt) ;;
                do reference <- call_lookup_schema (_registry self) subject schema false ;;
                for_dep rest
                  (schema_refs
                   ++ [mkSchemaReference (fd_name dep) subject (version reference)]))%store
         end) dependencies []
  end.

(** What a step of [__call__] leaves behind: its outcome, the serializer
    and the world. *)
Definition step (A : Type) : Type := outcome A * t R * World R.

(** Carry on with [k] after a store computation, or stop with what it
    raised; [self] is the serializer as it is at that point. *)
Definition after {A B : Type} (r : outcome A * World R) (self : t R)
    (k : A -> World R -> step B) : step B :=
  match r with
  | (Ret a, w) => k a w
  | (Raise e, w) => (Raise e, self, w)
  | (Diverges, w) => (Diverges, self, w)
  end.

(** The body of [if subject not in self._known_subjects:]. *)
Definition first_use (self : t R) (message : Message) (ctx : SerializationContext)
    (subject : string) (w : World R) : step unit :=
  let resolved : step unit :=
    if _use_latest_version self then
      after (call_get_latest_version (_registry self) subject w) self
        (fun latest_schema w =>
           (Ret tt, set_schema_id self (Some (schema_id latest_schema)), w))
    else
      after (_resolve_dependencies self ctx (md_file (DESCRIPTOR (msg_type message))) w)
        self
        (fun refs w =>
           let self := set_schema_references self refs in
           if _auto_register self then
             after (call_register_schema (_registry self) subject (_schema self)
                      (_normalize_schemas self) w) self
               (fun id w => (Ret tt, set_schema_id self (Some id), w))
           else
             after (call_lookup_schema (_registry self) subject (_schema self)
                      (_normalize_schemas self) w) self
               (fun r w => (Ret tt, set_schema_id self (Some (schema_id r)), w)))
  in
  match resolved with
  | (Ret _, self, w) => (Ret tt, add_known_subject self subject, w)
  | other => other
  end.

(** The [with _ContextStringIO() as fo:] block: header, index, payload. *)
Definition write_envelope (self : t R) (message : Message)
  : outcome (option (list byte)) :=
  do fo <- struct_pack_bI _MAGIC_BYTE (_schema_id self) ;;
  do fo <- _encode_varints fo (_msg_index self)
             (negb (_use_deprecated_format self)) ;;
  Ret (Some (fo ++ SerializeToString message)).

Definition subject_of (self : t R) (message : Message) (ctx : SerializationContext)
  : string :=
  _subject_name_func self ctx (ArgName (md_full_name (DESCRIPTOR (msg_type message)))).

(** [__call__(self, message_type, ctx)]; [None] for the result is
    Python's [None].  The class names of the [ValueError] message are not
    modelled. *)
Definition __call__ (self : t R) (message_type : option Message)
    (ctx : SerializationContext) (w : World R) : step (option (list byte)) :=
  match message_type with
  | None => (Ret None, self, w)
  | Some message =>
      if negb (isinstance message (_msg_class self)) then
        (Raise (ValueError "message must be of type {} not {}"), self, w)
      else
        let subject := subject_of self message ctx in
        let '(r, self, w) :=
          if negb (bool_decide (subject ∈ _known_subjects self))
          then first_use self message ctx subject w
          else (Ret tt, self, w) in
        match r with
        | Ret _ => (write_envelope self message, self, w)
        | Raise e => (Raise e, self, w)
        | Diverges => (Diverges, self, w)
        end
  end.

End Methods.

End ProtobufSerializer.

(** ** [ProtobufDeserializer] *)

Module ProtobufDeserializer.

(** The instance attributes listed in [__slots__]. *)
Record t : Type := mk {
  _msg_class : MessageType;
  _msg_index : list Z;
  _use_deprecated_format : bool
}.

(** [_read_byte(buf)]: the next byte of the reader and the reader after
    it. *)
Definition _read_byte (buf : list byte) : outcome (Z * list byte) :=
  match buf with
  | [] => Raise (EOFError "Unexpected EOF encountered")
  | i :: rest => Ret (ord i, rest)
  end.

(** The [while True] loop of [_decode_varint]; it reads one byte per
    iteration, so it is structural in the bytes left. *)
Fixpoint _decode_varint_loop (buf : list byte) (value shift : Z)
  : outcome (Z * list byte) :=
  match buf with
  | [] => _read_byte []
  | b :: rest =>
      let i := ord b in
      let value := Z.lor value (Z.shiftl (Z.land i 127) shift) in
      let shift := shift + 7 in
      if negb (Z.land i 128 =? 0) then _decode_varint_loop rest value shift
      else Ret (value, rest)
  end.

(** [_decode_varint(buf, zigzag)]; the [except EOFError] clause replaces
    the message of the [EOFError] of [_read_byte]. *)
Definition _decode_varint (buf : list byte) (zigzag : bool)
  : outcome (Z * list byte) :=
  match _decode_varint_loop buf 0 0 with
  | Ret (value, rest) =>
      let value :=
        if zigzag then Z.lxor (Z.shiftr value 1) (- Z.land value 1) else value in
      Ret (value, rest)
  | Raise (EOFError _) => Raise (EOFError "Unexpected EOF while reading index")
  | Raise e => Raise e
  | Diverges => Diverges
  end.

(** The [for _ in range(size)] loop of [_decode_index]. *)
Fixpoint _decode_index_loop (n : nat) (buf : list byte) (zigzag : bool)
    (msg_index : list Z) : outcome (list Z * list byte) :=
  match n with
  | O => Ret (msg_index, buf)
  | S n' =>
      do '(v, buf) <- _decode_varint buf zigzag ;;
      _decode_index_loop n' buf zigzag (msg_index ++ [v])
  end.

(** [_decode_index(buf, zigzag)]. *)
Definition _decode_index (buf : list byte) (zigzag : bool)
  : outcome (list Z * list byte) :=
  do '(size, buf) <- _decode_varint buf zigzag ;;
  if (size <? 0) || (size >? 100000) then
    Raise (DecodeError "Invalid Protobuf msgidx array length")
  else if size =? 0 then Ret ([0], buf)
  else _decode_index_loop (Z.to_nat size) buf zigzag [].

Definition _default_conf : dict := [ ("use.deprecated.format", VBool false) ].

Definition flag_not_set : string :=
  "ProtobufDeserializer: the 'use.deprecated.format' configuration property must be explicitly set due to backward incompatibility with older confluent-kafka-python Protobuf producers and consumers. See the release notes for more details".

Definition too_small : string :=
  "Message too small. This message was not produced with a Confluent Schema Registry serializer".

Definition unknown_magic : string :=
  "Unknown magic byte. This message was not produced with a Confluent Schema Registry serializer".

Section Methods.

(** The protobuf runtime: [MessageFactory().GetPrototype(descriptor)], and
    [cls()] followed by [ParseFromString(data)] on the new message. *)
Variable GetPrototype : MessageDescriptor -> MessageType.
Variable ParseFromString : MessageType -> list byte -> outcome Message.

(** [__init__(self, message_type, conf)]; the warning emitted when the
    deprecated format is selected is not modelled. *)
Definition __init__ (message_type : MessageType) (conf : option dict)
  : outcome t :=
  if match conf with
     | None => true
     | Some c => negb (dict_contains "use.deprecated.format" c)
     end
  then Raise (RuntimeError flag_not_set)
  else
    let conf_copy := _default_conf in
    let conf_copy :=
      match conf with Some c => dict_update conf_copy c | None => conf_copy end in
    do '(use_deprecated_format, conf_copy) <-
      pop_bool "use.deprecated.format"
        "use.deprecated.format must be a boolean value" conf_copy ;;
    let descriptor := DESCRIPTOR message_type in
    do msg_index <- _create_msg_index descriptor ;;
    Ret (mk (GetPrototype descriptor) msg_index use_deprecated_format).

(** [__call__(self, value, ctx)]; [None] for the argument and for the
    result is Python's [None]. *)
Definition __call__ (self : t) (value : option (list byte))
    (ctx : SerializationContext) : outcome (option Message) :=
  match value with
  | None => Ret None
  | Some value =>
      if Z.of_nat (List.length value) <? 6 then
        Raise (SerializationError too_small)
      else
        let payload := value in
        do '(magic, schema_id) <- struct_unpack_bI (List.firstn 5 payload) ;;
        let payload := List.skipn 5 payload in
        if negb (magic =? _MAGIC_BYTE) then
          Raise (SerializationError unknown_magic)
        else
          do '(_, payload) <-
            _decode_index payload (negb (_use_deprecated_format self)) ;;
          match ParseFromString (_msg_class self) payload with
          | Ret msg => Ret (Some msg)
          | Raise (DecodeError e) => Raise (SerializationError e)
          | Raise e => Raise e
          | Diverges => Diverges
          end
  end.

End Methods.

End ProtobufDeserializer.

(** ** What the specification says, and sample inputs *)

(** A descriptor that is the only top-level type of its file and has no
    enclosing type. *)
Definition only_top_level_type (t : MessageDescriptor) : Prop :=
  md_containing_type t = None /\
  fd_message_types_by_name (md_file t) = [md_name t].

(** A descriptor with no enclosing type whose name comes first among the
    message types of its file. *)
Definition first_top_level_type (t : MessageDescriptor) : Prop :=
  md_containing_type t = None /\
  List.hd_error (fd_message_types_by_name (md_file t)) = Some (md_name t).

(** The specification's names for the errors of the deserialize path. *)
Definition TooShort (e : exn) : Prop :=
  e = SerializationError ProtobufDeserializer.too_small.

Definition BadMagicByte (e : exn) : Prop :=
  e = SerializationError ProtobufDeserializer.unknown_magic.

Definition InvalidFormat (e : exn) : Prop :=
  e = DecodeError "Invalid Protobuf msgidx array length".

(** The store calls [_resolve_dependencies] makes for one dependency: the
    registration when schemas are registered automatically, then the lookup. *)
Definition dependency_calls (auto_register : bool) (subject : string)
    (schema : Schema) (registered : Z) (looked_up : RegisteredSchema)
  : list StoreCall :=
  (if auto_register
   then [Call_register_schema subject schema false (Ret registered)]
   else [])
  ++ [Call_lookup_schema subject schema false (Ret looked_up)].

(** The specification's names for the errors of construction: the index
    of the bound type cannot be computed, or the configuration is refused. *)
Definition TypeNotFound (e : exn) : Prop :=
  e = ValueError "Nested MessageDescriptor not found" \/
  e = ValueError "MessageDescriptor not found in file".

Definition configuration_messages : list string :=
  [ "auto.register.schemas must be a boolean value";
    "normalize.schemas must be a boolean value";
    "use.latest.version must be a boolean value";
    "cannot enable both use.latest.version and auto.register.schemas";
    "skip.known.types must be a boolean value";
    "use.deprecated.format must be a boolean value";
    "subject.name.strategy must be callable" ].

Definition ConfigurationError (e : exn) : Prop :=
  e = RuntimeError ProtobufSerializer.flag_not_set \/
  e = RuntimeError ProtobufDeserializer.flag_not_set \/
  exists msg,
    e = ValueError msg /\
    (List.In msg configuration_messages
     \/ String.prefix "Unrecognized properties: " msg = true).

Definition is_bool (v : pyval) : bool :=
  match v with VBool _ => true | _ => false end.

Definition is_callable (v : pyval) : bool :=
  match v with VCallable _ => true | _ => false end.

(** The options of the serializer, by the type their value must have. *)
Definition bool_options : list string :=
  [ "auto.register.schemas"; "normalize.schemas"; "use.latest.version";
    "skip.known.types"; "use.deprecated.format" ].

Definition callable_options : list string :=
  [ "subject.name.strategy"; "reference.subject.name.strategy" ].

(** A configuration is a dictionary: no key twice. *)
Definition is_dict (c : dict) : Prop := List.NoDup (dict_keys c).

(** The legacy-mode flag is omitted: no configuration, or one without it. *)
Definition flag_omitted (conf : option dict) : Prop :=
  match conf with
  | None => True
  | Some c => dict_get "use.deprecated.format" c = None
  end.

(** An option is given a value of the wrong type. *)
Definition wrong_type (bools callables : list string) (c : dict) : Prop :=
  exists key v,
    dict_get key c = Some v /\
    ((List.In key bools /\ is_bool v = false)
     \/ (List.In key callables /\ is_callable v = false)).

(** An option is enabled: given as [True], or not given and [True] by
    default. *)
Definition enabled (defaults c : dict) (key : string) : Prop :=
  match dict_get key c with
  | Some v => v = VBool true
  | None => dict_get key defaults = Some (VBool true)
  end.

(** An option name is not among the recognized ones. *)
Definition unrecognized (recognized : list string) (c : dict) : Prop :=
  exists key, List.In key (dict_keys c) /\ ~ List.In key recognized.

(** The four cases in which the serializer refuses its configuration. *)
Definition serializer_conf_refused (defaults : dict) (conf : option dict) : Prop :=
  flag_omitted conf \/
  exists c,
    conf = Some c /\
    ((enabled defaults c "auto.register.schemas"
      /\ enabled defaults c "use.latest.version")
     \/ unrecognized (bool_options ++ callable_options) c
     \/ wrong_type bool_options callable_options c).

(** The cases in which the deserializer refuses a configuration that names
    only its one option. *)
Definition deserializer_conf_refused (conf : option dict) : Prop :=
  flag_omitted conf \/
  exists c, conf = Some c /\ wrong_type ["use.deprecated.format"] [] c.

(** The test that makes [_resolve_dependencies] pass over a dependency. *)
Definition skips {R : Type} (self : ProtobufSerializer.t R) (dep : FileDescriptor)
  : bool :=
  ProtobufSerializer._skip_known_types self
  && String.prefix "google/protobuf/" (fd_name dep).

(** The [for dep in file_desc.dependencies] loop of
    [_resolve_dependencies] as a function of its own, from the dependencies
    left and the references gathered so far. *)
Fixpoint for_dep {R : Type} (self : ProtobufSerializer.t R)
    (ctx : SerializationContext) (deps : list FileDescriptor)
    (schema_refs : list SchemaReference) : Store R (list SchemaReference) :=
  match deps with
  | [] => sret schema_refs
  | dep :: rest =>
      if skips self dep then for_dep self ctx rest schema_refs
      else
        (do dep_refs <- ProtobufSerializer._resolve_dependencies self ctx dep ;;
         let subject :=
           ProtobufSerializer._ref_reference_subject_func self ctx (ArgFile dep) in
         let schema := mkSchema (_schema_to_str dep) "PROTOBUF" dep_refs in
         do _ <- (if ProtobufSerializer._auto_register self
                  then do _ <- call_register_schema
                                 (ProtobufSerializer._registry self)
                                 subject schema false ;; sret tt
                  else sret tt) ;;
         do reference <- call_lookup_schema (ProtobufSerializer._registry self)
                           subject schema false ;;
         for_dep self ctx rest
           (schema_refs
            ++ [mkSchemaReference (fd_name dep) subject (version reference)]))%store
  end.

(** A store that answers every registration and every lookup. *)
Definition store_answers {R : Type} (registry : SchemaRegistryClient R) : Prop :=
  (forall subject schema normalize st,
      exists id st', register_schema registry subject schema normalize st = (Ret id, st')) /\
  (forall subject schema normalize st,
      exists r st', lookup_schema registry subject schema normalize st = (Ret r, st')).

(** Two states of a serializer that differ at most in the known subjects,
    the schema identifier and the schema's references. *)
Definition same_settings {R : Type} (a b : ProtobufSerializer.t R) : Prop :=
  ProtobufSerializer._subject_name_func a = ProtobufSerializer._subject_name_func b /\
  ProtobufSerializer._msg_class a = ProtobufSerializer._msg_class b /\
  ProtobufSerializer._msg_index a = ProtobufSerializer._msg_index b /\
  ProtobufSerializer._use_deprecated_format a
  = ProtobufSerializer._use_deprecated_format b.

Module Examples.

(** [shop.proto] declares two top-level messages, [Order] and [Invoice];
    [Order] nests [Address] and [Item], in that order. *)
Definition shop_proto : FileDescriptor :=
  mkFileDescriptor "shop.proto" [x0a; x0a; x73; x68] [] ["Order"; "Invoice"].

Definition order : MessageDescriptor :=
  mkMessageDescriptor 1 "Order" "shop.Order" None [2; 3]%nat shop_proto.

Definition address : MessageDescriptor :=
  mkMessageDescriptor 2 "Address" "shop.Order.Address" (Some order) [] shop_proto.

Definition item : MessageDescriptor :=
  mkMessageDescriptor 3 "Item" "shop.Order.Item" (Some order) [] shop_proto.

(** A chain of three descriptors whose middle link is broken: [leaf] is
    listed by [middle], but [top] does not list [middle]. *)
Definition tree_proto : FileDescriptor :=
  mkFileDescriptor "tree.proto" [] [] ["Top"].

Definition top : MessageDescriptor :=
  mkMessageDescriptor 10 "Top" "Top" None [] tree_proto.

Definition middle : MessageDescriptor :=
  mkMessageDescriptor 11 "Middle" "Top.Middle" (Some top) [12%nat] tree_proto.

Definition leaf : MessageDescriptor :=
  mkMessageDescriptor 12 "Leaf" "Top.Middle.Leaf" (Some middle) [] tree_proto.

(** A stub store that counts the calls it receives.  Every subject is
    registered under an identifier of its own, the length of its name, at
    version 1. *)
Definition id_of (subject : string) : Z := Z.of_nat (String.length subject).

Definition counting_store : SchemaRegistryClient nat :=
  mkSchemaRegistryClient nat
    (fun subject _ _ n => (Ret (id_of subject), S n))
    (fun subject _ _ n => (Ret (mkRegisteredSchema (id_of subject) 1), S n))
    (fun subject n => (Ret (mkRegisteredSchema (id_of subject) 1), S n)).

(** The subject is the topic, a dash, and the field; a reference is
    registered under its file name. *)
Definition by_topic : strategy :=
  fun ctx _ => (topic ctx ++ "-" ++ field ctx)%string.

Definition by_file_name : strategy :=
  fun _ arg =>
    match arg with
    | ArgFile file_desc => fd_name file_desc
    | ArgName full_name => full_name
    end.

(** [a.proto] imports [b.proto] and [c.proto]; [b.proto] imports
    [d.proto]. *)
Definition d_proto : FileDescriptor := mkFileDescriptor "d.proto" [x0a] [] ["D"].
Definition c_proto : FileDescriptor := mkFileDescriptor "c.proto" [x0b] [] ["C"].
Definition b_proto : FileDescriptor :=
  mkFileDescriptor "b.proto" [x0c] [d_proto] ["B"].
Definition a_proto : FileDescriptor :=
  mkFileDescriptor "a.proto" [x0d] [b_proto; c_proto] ["A"].

(** A descriptor whose name is not among the message types of its file. *)
Definition stray : MessageDescriptor :=
  mkMessageDescriptor 20 "Stray" "shop.Stray" None [] shop_proto.

Definition Stray : MessageType := mkMessageType 2 stray.

Definition Order : MessageType := mkMessageType 1 order.

Definition an_order : Message := mkMessage Order [x08; x2a].

Definition world0 : World nat := mkWorld 0%nat [].

(** A serializer for [Order] as [__init__] leaves it, auto-registering. *)
Definition order_serializer : ProtobufSerializer.t nat :=
  ProtobufSerializer.mk true false false false counting_store ∅ Order [0]
    (mkSchema (_schema_to_str shop_proto) "PROTOBUF" []) None
    by_file_name by_topic false.

End Examples.

(** ** Notions used by the further properties *)

(** The integers a mode of the codec carries across: signed 64-bit ones
    with zig-zag encoding, non-negative ones without. *)
Definition encodable (zigzag : bool) (v : Z) : Prop :=
  if zigzag then - 2 ^ 63 <= v < 2 ^ 63 else 0 <= v.

(** A byte whose continuation bit is set. *)
Definition continues (b : byte) : bool := negb (Z.land (ord b) 128 =? 0).

(** The position of the first element equal to [x], counting from
    [idx]. *)
Fixpoint position_of (l : list nat) (x : nat) (idx : Z) : option Z :=
  match l with
  | [] => None
  | y :: rest => if Nat.eqb y x then Some idx else position_of rest x (idx + 1)
  end.

(** The position of the first name equal to [name], counting from [idx]. *)
Fixpoint name_position (names : list string) (name : string) (idx : Z)
  : option Z :=
  match names with
  | [] => None
  | n :: rest =>
      if String.eqb n name then Some idx else name_position rest name (idx + 1)
  end.

(** The outermost enclosing type of a descriptor. *)
Fixpoint root_of (d : MessageDescriptor) : MessageDescriptor :=
  match d with
  | mkMessageDescriptor _ _ _ (Some parent) _ _ => root_of parent
  | _ => d
  end.

(** The positions that lead from the outermost enclosing type down to a
    descriptor, when every enclosing type lists the type it encloses. *)
Fixpoint path_to (d : MessageDescriptor) : option (list Z) :=
  match d with
  | mkMessageDescriptor id _ _ (Some parent) _ _ =>
      match path_to parent, position_of (md_nested_types parent) id 0 with
      | Some path, Some i => Some (path ++ [i])
      | _, _ => None
      end
  | _ => Some []
  end.

(** How a computation failed, if it did: [Some (Some e)] when it raised
    [e], [Some None] when it did not return, [None] when it returned. *)
Definition failure {A : Type} (o : outcome A) : option (option exn) :=
  match o with
  | Ret _ => None
  | Raise e => Some (Some e)
  | Diverges => Some None
  end.

(** How the store failed to answer a call, if it did. *)
Definition call_failure (c : StoreCall) : option (option exn) :=
  match c with
  | Call_register_schema _ _ _ answer => failure answer
  | Call_lookup_schema _ _ _ answer => failure answer
  | Call_get_latest_version _ answer => failure answer
  end.

(** The store answered the call. *)
Definition answered (c : StoreCall) : Prop := call_failure c = None.

(** The calls [cs] of a computation whose only failures are the store's:
    it returned and every call was answered, or it failed as its last call
    did, every call before that one answered. *)
Definition fails_with_store (f : option (option exn)) (cs : list StoreCall)
  : Prop :=
  match f with
  | None => List.Forall answered cs
  | Some f =>
      exists init c,
        cs = init ++ [c] /\ List.Forall answered init /\ call_failure c = Some f
  end.

(** A store computation that logs only calls of the kind [Q] and whose
    only failures are the store's. *)
Definition asks {R A : Type} (Q : StoreCall -> Prop) (m : Store R A) : Prop :=
  forall w,
    exists cs,
      calls (snd (m w)) = calls w ++ cs /\
      List.Forall Q cs /\
      fails_with_store (failure (fst (m w))) cs.

(** The calls the resolution of dependencies may make: lookups, and
    registrations when schemas are registered automatically. *)
Definition dependency_call {R : Type} (self : ProtobufSerializer.t R)
    (c : StoreCall) : Prop :=
  match c with
  | Call_register_schema _ _ _ _ => ProtobufSerializer._auto_register self = true
  | Call_lookup_schema _ _ _ _ => True
  | Call_get_latest_version _ _ => False
  end.

(** The calls a serializer may make, by its settings. *)
Definition permitted {R : Type} (self : ProtobufSerializer.t R)
    (c : StoreCall) : Prop :=
  match c with
  | Call_register_schema _ _ _ _ =>
      ProtobufSerializer._auto_register self = true /\
      ProtobufSerializer._use_latest_version self = false
  | Call_lookup_schema _ _ _ _ =>
      ProtobufSerializer._use_latest_version self = false
  | Call_get_latest_version _ _ =>
      ProtobufSerializer._use_latest_version self = true
  end.

(** The three operations of the store. *)
Inductive operation : Type := Register | Lookup | GetLatestVersion.

Definition call_operation (c : StoreCall) : operation :=
  match c with
  | Call_register_schema _ _ _ _ => Register
  | Call_lookup_schema _ _ _ _ => Lookup
  | Call_get_latest_version _ _ => GetLatestVersion
  end.

(** The operations on one dependency, under its subject. *)
Definition dependency_operations (auto_register : bool) (subject : string)
  : list (operation * string) :=
  (if auto_register then [(Register, subject)] else []) ++ [(Lookup, subject)].

(** The imports of a file in the order a depth-first walk leaves them: the
    imports of an import, then the import itself.  A file that is imported
    along two paths is listed once for each; what [skip] holds is passed
    over together with its own imports. *)
Fixpoint visits (skip : FileDescriptor -> bool) (file_desc : FileDescriptor)
  : list FileDescriptor :=
  match file_desc with
  | mkFileDescriptor _ _ dependencies _ =>
      (fix over (deps : list FileDescriptor) : list FileDescriptor :=
         match deps with
         | [] => []
         | dep :: rest =>
             if skip dep then over rest
             else visits skip dep ++ dep :: over rest
         end) dependencies
  end.

(** [visits] on each file of a list, one after the other. *)
Fixpoint visits_each (skip : FileDescriptor -> bool) (deps : list FileDescriptor)
  : list FileDescriptor :=
  match deps with
  | [] => []
  | dep :: rest =>
      if skip dep then visits_each skip rest
      else visits skip dep ++ dep :: visits_each skip rest
  end.

(** The dependencies [_resolve_dependencies] does not pass over. *)
Definition kept {R : Type} (self : ProtobufSerializer.t R)
    (file_desc : FileDescriptor) : list FileDescriptor :=
  List.filter (fun dep => negb (skips self dep)) (fd_dependencies file_desc).

(** Two states of a serializer that differ at most in what a call writes:
    the known subjects, the schema identifier and the references of the
    schema. *)
Definition keeps_configuration {R : Type} (a b : ProtobufSerializer.t R) : Prop :=
  ProtobufSerializer._auto_register b = ProtobufSerializer._auto_register a /\
  ProtobufSerializer._normalize_schemas b = ProtobufSerializer._normalize_schemas a /\
  ProtobufSerializer._use_latest_version b = ProtobufSerializer._use_latest_version a /\
  ProtobufSerializer._skip_known_types b = ProtobufSerializer._skip_known_types a /\
  ProtobufSerializer._registry b = ProtobufSerializer._registry a /\
  ProtobufSerializer._msg_class b = ProtobufSerializer._msg_class a /\
  ProtobufSerializer._msg_index b = ProtobufSerializer._msg_index a /\
  schema_str (ProtobufSerializer._schema b)
  = schema_str (ProtobufSerializer._schema a) /\
  schema_type (ProtobufSerializer._schema b)
  = schema_type (ProtobufSerializer._schema a) /\
  ProtobufSerializer._ref_reference_subject_func b
  = ProtobufSerializer._ref_reference_subject_func a /\
  ProtobufSerializer._subject_name_func b = ProtobufSerializer._subject_name_func a /\
  ProtobufSerializer._use_deprecated_format b
  = ProtobufSerializer._use_deprecated_format a.

(* ===== THEOREMS ===== *)

(** ** Properties of the varint codec *)

Module VarintFacts.
Import ProtobufSerializer ProtobufDeserializer.

Lemma _bytes_ok (b : Z) :
  0 <= b < 256 -> exists x, _bytes b = Ret x /\ ord x = b.
Proof.
  intros Hb. unfold _bytes.
  destruct (Z.leb_spec 0 b); [|lia].
  destruct (Z.ltb_spec b 256); [|lia]. simpl.
  destruct (Byte.of_N (Z.to_N b)) as [x|] eqn:E.
  - exists x. split; [reflexivity|].
    unfold ord. apply Byte.to_of_N in E. rewrite E. lia.
  - apply Byte.of_N_None_iff in E. lia.
Qed.

(** The loop condition [(val & ~0x7f) != 0] fails exactly on [0..127]. *)
Lemma high_bits_zero (val : Z) :
  Z.land val (Z.lnot 127) = 0 <-> 0 <= val < 128.
Proof.
  rewrite <- Z.ldiff_land. change 127 with (Z.ones 7).
  rewrite Z.ldiff_ones_r by lia.
  rewrite Z.shiftl_eq_0_iff by lia.
  rewrite Z.shiftr_div_pow2 by lia. change (2 ^ 7) with 128.
  split; intros H.
  - assert (0 <= val < 128 \/ val < 0 \/ 128 <= val) as [?|[?|?]] by lia; auto.
    + assert (val / 128 < 0) by (apply Z.div_lt_upper_bound; lia). lia.
    + assert (1 <= val / 128) by (apply Z.div_le_lower_bound; lia). lia.
  - apply Z.div_small; lia.
Qed.

Lemma low_bits_range (val : Z) : 0 <= Z.land val 127 < 128.
Proof.
  change 127 with (Z.ones 7). rewrite Z.land_ones by lia.
  apply Z.mod_pos_bound. reflexivity.
Qed.

Lemma continuation_byte_range (val : Z) :
  0 <= Z.lor (Z.land val 127) 128 < 256.
Proof.
  pose proof (low_bits_range val) as H.
  rewrite <- Z.add_nocarry_lor; [lia|].
  rewrite <- Z.land_assoc. change (Z.land 127 128) with 0. apply Z.land_0_r.
Qed.

Lemma continuation_byte_low (val : Z) :
  Z.land (Z.lor (Z.land val 127) 128) 127 = Z.land val 127.
Proof.
  rewrite Z.land_lor_distr_l, <- Z.land_assoc.
  change (Z.land 127 127) with 127. change (Z.land 128 127) with 0.
  apply Z.lor_0_r.
Qed.

Lemma continuation_byte_flag (val : Z) :
  Z.land (Z.lor (Z.land val 127) 128) 128 = 128.
Proof.
  rewrite Z.land_lor_distr_l, <- Z.land_assoc.
  change (Z.land 127 128) with 0. rewrite Z.land_0_r. reflexivity.
Qed.

Lemma last_byte_low (val : Z) : 0 <= val < 128 -> Z.land val 127 = val.
Proof.
  intros H. change 127 with (Z.ones 7). rewrite Z.land_ones by lia.
  apply Z.mod_small. change (2 ^ 7) with 128. lia.
Qed.

Lemma last_byte_flag (val : Z) : 0 <= val < 128 -> Z.land val 128 = 0.
Proof.
  intros H. rewrite <- (last_byte_low val H), <- Z.land_assoc.
  change (Z.land 127 128) with 0. apply Z.land_0_r.
Qed.

(** Splitting off the low group of seven bits loses nothing. *)
Lemma regroup (val shift : Z) :
  0 <= shift ->
  Z.lor (Z.shiftl (Z.land val 127) shift)
        (Z.shiftl (Z.shiftr val 7) (shift + 7)) = Z.shiftl val shift.
Proof.
  intros Hs. rewrite (Z.add_comm shift 7), <- Z.shiftl_shiftl by lia.
  rewrite <- Z.shiftl_lor. f_equal.
  change 127 with (Z.ones 7). rewrite <- Z.ldiff_ones_r by lia.
  rewrite Z.lor_comm. apply Z.lor_ldiff_and.
Qed.

(** On a non-negative value the loop exits within [fuel] tests as soon as
    [fuel] exceeds the position of the highest bit, and what it wrote is read
    back by the decoder's loop, merged into [value] at [shift]. *)
Lemma _write_varint_loop_decodes (fuel : nat) :
  forall (buf : list byte) (val : Z),
    0 <= val -> (Z.to_nat (Z.log2 val) < fuel)%nat ->
    exists enc,
      _write_varint_loop fuel buf val = Ret (buf ++ enc) /\
      enc <> [] /\
      forall rest value shift, 0 <= shift ->
        _decode_varint_loop (enc ++ rest) value shift
        = Ret (Z.lor value (Z.shiftl val shift), rest).
Proof.
  induction fuel as [|fuel IH]; intros buf val Hval Hfuel; [lia|].
  cbn [_write_varint_loop].
  destruct (Z.eqb_spec (Z.land val (Z.lnot 127)) 0) as [E|E]; cbn [negb].
  - apply high_bits_zero in E.
    destruct (_bytes_ok val) as (x & Hx & Hord); [lia|].
    rewrite Hx. cbn [bind]. exists [x]. split; [reflexivity|].
    split; [discriminate|].
    intros rest value shift Hs. cbn [app _decode_varint_loop].
    rewrite Hord, (last_byte_flag val E), (last_byte_low val E). reflexivity.
  - assert (128 <= val) as Hbig.
    { destruct (Z_lt_ge_dec val 128); [|lia].
      exfalso. apply E, high_bits_zero. lia. }
    destruct (_bytes_ok _ (continuation_byte_range val)) as (x & Hx & Hord).
    rewrite Hx. cbn [bind].
    assert (0 <= Z.shiftr val 7) as Hnn by (apply Z.shiftr_nonneg; lia).
    assert (Z.log2 (Z.shiftr val 7) = Z.log2 val - 7) as Hlog.
    { rewrite Z.log2_shiftr by lia.
      assert (7 <= Z.log2 val) by (apply Z.log2_le_pow2; [lia|exact Hbig]).
      lia. }
    destruct (IH (buf ++ [x]) (Z.shiftr val 7) Hnn) as (enc & Henc & _ & Hdec).
    { rewrite Hlog.
      assert (7 <= Z.log2 val) by (apply Z.log2_le_pow2; [lia|exact Hbig]).
      lia. }
    exists (x :: enc). split; [|split; [discriminate|]].
    + rewrite Henc, <- app_assoc. reflexivity.
    + intros rest value shift Hs. cbn [app _decode_varint_loop].
      rewrite Hord, continuation_byte_flag, continuation_byte_low.
      cbn [Z.eqb negb]. rewrite Hdec by lia.
      rewrite <- Z.lor_assoc, regroup by lia. reflexivity.
Qed.

(** On a negative value the loop condition holds forever: [val >> 7] stays
    negative, so no amount of fuel reaches the exit. *)
Lemma _write_varint_loop_negative (fuel : nat) :
  forall (buf : list byte) (val : Z),
    val < 0 -> _write_varint_loop fuel buf val = Diverges.
Proof.
  induction fuel as [|fuel IH]; intros buf val Hval; [reflexivity|].
  cbn [_write_varint_loop].
  destruct (Z.eqb_spec (Z.land val (Z.lnot 127)) 0) as [E|E]; cbn [negb].
  - apply high_bits_zero in E. lia.
  - destruct (_bytes_ok _ (continuation_byte_range val)) as (x & Hx & _).
    rewrite Hx. cbn [bind]. apply IH. apply Z.shiftr_neg. exact Hval.
Qed.

(** Two runs of the loop that both exit wrote the same bytes. *)
Lemma _write_varint_loop_deterministic (n : nat) :
  forall (m : nat) (buf : list byte) (val : Z) (out1 out2 : list byte),
    _write_varint_loop n buf val = Ret out1 ->
    _write_varint_loop m buf val = Ret out2 -> out1 = out2.
Proof.
  induction n as [|n IHn]; intros m buf val out1 out2 Hn Hm; [discriminate|].
  destruct m as [|m]; [discriminate|].
  cbn [_write_varint_loop] in Hn, Hm.
  destruct (negb (Z.land val (Z.lnot 127) =? 0)).
  - destruct (_bytes (Z.lor (Z.land val 127) 128)); cbn [bind] in *;
      try discriminate.
    eapply IHn; eassumption.
  - congruence.
Qed.

(** More fuel than [varint_fuel] changes nothing, so [Diverges] from
    [_write_varint] is a loop that never exits, not a short supply. *)
Lemma _write_varint_loop_fuel (fuel : nat) (buf : list byte) (val : Z) :
  (varint_fuel val <= fuel)%nat ->
  _write_varint_loop fuel buf val = _write_varint_loop (varint_fuel val) buf val.
Proof.
  intros Hfuel. destruct (Z_lt_ge_dec val 0) as [Hneg|Hpos].
  - rewrite !_write_varint_loop_negative by exact Hneg. reflexivity.
  - destruct (_write_varint_loop_decodes fuel buf val) as (e1 & H1 & _);
      [lia|unfold varint_fuel in Hfuel; lia|].
    destruct (_write_varint_loop_decodes (varint_fuel val) buf val)
      as (e2 & H2 & _); [lia|unfold varint_fuel; lia|].
    rewrite H1, H2. f_equal.
    eapply _write_varint_loop_deterministic; eassumption.
Qed.

(** The zig-zag transform of a signed 64-bit integer is non-negative and
    is undone by the decoder's inverse transform. *)
Lemma zigzag_nonneg (v : Z) :
  - 2 ^ 63 <= v < 2 ^ 63 -> 0 <= Z.lxor (Z.shiftl v 1) (Z.shiftr v 63).
Proof.
  intros Hv. rewrite Z.lxor_nonneg, Z.shiftl_nonneg, Z.shiftr_nonneg. tauto.
Qed.

Lemma land_one (a : Z) : Z.land a 1 = a mod 2.
Proof.
  change 1 with (Z.ones 1). rewrite Z.land_ones by lia. reflexivity.
Qed.

Lemma zigzag_inverse (v : Z) :
  - 2 ^ 63 <= v < 2 ^ 63 ->
  let zz := Z.lxor (Z.shiftl v 1) (Z.shiftr v 63) in
  Z.lxor (Z.shiftr zz 1) (- Z.land zz 1) = v.
Proof.
  intros Hv zz. subst zz.
  rewrite Z.shiftl_mul_pow2, (Z.shiftr_div_pow2 v 63) by lia.
  change (2 ^ 1) with 2.
  destruct (Z_lt_ge_dec v 0) as [Hneg|Hpos].
  - assert (v / 2 ^ 63 = -1) as ->.
    { symmetry. apply (Z.div_unique v (2 ^ 63) (-1) (v + 2 ^ 63)); lia. }
    rewrite Z.lxor_m1_r. unfold Z.lnot.
    replace (Z.pred (- (v * 2))) with (2 * (- v - 1) + 1) by lia.
    rewrite land_one, Z.shiftr_div_pow2 by lia. change (2 ^ 1) with 2.
    replace ((2 * (- v - 1) + 1) / 2) with (- v - 1)
      by (apply (Z.div_unique _ 2 _ 1); lia).
    replace ((2 * (- v - 1) + 1) mod 2) with 1
      by (apply (Z.mod_unique _ 2 (- v - 1) 1); lia).
    change (- (1)) with (-1). rewrite Z.lxor_m1_r. unfold Z.lnot. lia.
  - rewrite (Z.div_small v) by lia. rewrite Z.lxor_0_r.
    rewrite land_one, Z.shiftr_div_pow2 by lia. change (2 ^ 1) with 2.
    rewrite Z.div_mul by lia. rewrite Z.mod_mul by lia.
    apply Z.lxor_0_r.
Qed.

(** [_write_varint] appends to the buffer it is given. *)
Lemma _write_varint_nonneg (buf : list byte) (val : Z) :
  0 <= val ->
  exists enc,
    _write_varint buf val false = Ret (buf ++ enc) /\
    forall rest, _decode_varint (enc ++ rest) false = Ret (val, rest).
Proof.
  intros Hval. unfold _write_varint.
  destruct (_write_varint_loop_decodes (varint_fuel val) buf val)
    as (enc & Henc & _ & Hdec); [lia|unfold varint_fuel; lia|].
  exists enc. split; [exact Henc|].
  intros rest. unfold _decode_varint. rewrite Hdec by lia.
  rewrite Z.shiftl_0_r, Z.lor_0_l. reflexivity.
Qed.

Lemma _write_varint_zigzag (buf : list byte) (val : Z) :
  - 2 ^ 63 <= val < 2 ^ 63 ->
  exists enc,
    _write_varint buf val true = Ret (buf ++ enc) /\
    forall rest, _decode_varint (enc ++ rest) true = Ret (val, rest).
Proof.
  intros Hval. unfold _write_varint.
  pose proof (zigzag_nonneg val Hval) as Hzz.
  set (zz := Z.lxor (Z.shiftl val 1) (Z.shiftr val 63)) in *.
  destruct (_write_varint_loop_decodes (varint_fuel zz) buf zz)
    as (enc & Henc & _ & Hdec); [lia|unfold varint_fuel; lia|].
  exists enc. split; [exact Henc|].
  intros rest. unfold _decode_varint. rewrite Hdec by lia.
  rewrite Z.shiftl_0_r, Z.lor_0_l.
  pose proof (zigzag_inverse val Hval) as Hinv. cbv zeta in Hinv.
  fold zz in Hinv. rewrite Hinv. reflexivity.
Qed.

End VarintFacts.

(** ** The index of a message descriptor *)

Module IndexFacts.

(** The search among the nested types either pushes one position and sets
    [found], or leaves both as they were. *)
Lemma find_nested_cases (nested : list nat) (previous : nat) :
  forall (idx : Z) (msg_idx : list Z) (found : bool),
    (exists i, find_nested nested previous idx msg_idx found = (i :: msg_idx, true))
    \/ find_nested nested previous idx msg_idx found = (msg_idx, found).
Proof.
  induction nested as [|node rest IH]; intros idx msg_idx found; cbn.
  - right. reflexivity.
  - destruct (Nat.eqb node previous); [left; eauto|apply IH].
Qed.

(** Induction along the chain of enclosing types. *)
Lemma containing_chain_ind (P : MessageDescriptor -> Prop) :
  (forall id name full_name nested file,
      P (mkMessageDescriptor id name full_name None nested file)) ->
  (forall id name full_name parent nested file,
      P parent -> P (mkMessageDescriptor id name full_name (Some parent) nested file)) ->
  forall d, P d.
Proof.
  intros Htop Hnested. fix IH 1.
  intros [id name full_name [parent|] nested file].
  - apply Hnested, IH.
  - apply Htop.
Qed.

(** The walk towards the root never shortens the index. *)
Lemma walk_up_length (current : MessageDescriptor) :
  forall (msg_idx : list Z) (found : bool) (root : MessageDescriptor) (out : list Z),
    walk_up current msg_idx found = Ret (root, out) ->
    (List.length msg_idx <= List.length out)%nat.
Proof.
  induction current as [id name full_name nested file
                       |id name full_name parent nested file IH]
    using containing_chain_ind; intros msg_idx found root out H; cbn in H.
  - injection H as _ <-. lia.
  - destruct (find_nested_cases (md_nested_types parent) id 0 msg_idx found)
      as [[i E]|E]; rewrite E in H.
    + cbn in H. apply IH in H. cbn in H. lia.
    + destruct found; cbn in H; [|discriminate]. apply IH in H. exact H.
Qed.

(** The search among the file's type names: as [find_nested], and the
    position pushed is the starting one exactly when the first name matches. *)
Lemma find_root_cases (names : list string) (name : string) :
  forall (idx : Z) (msg_idx : list Z) (found : bool),
    (exists i, find_root names name idx msg_idx found = (i :: msg_idx, true)
               /\ idx <= i
               /\ (i = idx <-> List.hd_error names = Some name))
    \/ (find_root names name idx msg_idx found = (msg_idx, found)
        /\ List.hd_error names <> Some name).
Proof.
  induction names as [|n rest IH]; intros idx msg_idx found; cbn.
  - right. split; [reflexivity|discriminate].
  - destruct (String.eqb_spec n name) as [->|Hne].
    + left. exists idx. repeat split; auto; lia.
    + destruct (IH (idx + 1) msg_idx found) as [(i & E & Hle & _)|[E _]].
      * left. exists i. split; [exact E|]. split; [lia|].
        split; [lia|]. intros [= ?]. contradiction.
      * right. split; [exact E|]. intros [= ?]. contradiction.
Qed.

(** The index is [[0]] exactly for a descriptor with no enclosing type whose
    name comes first among the file's message types. *)
Lemma _create_msg_index_root (msg_desc : MessageDescriptor) :
  _create_msg_index msg_desc = Ret [0] <->
  md_containing_type msg_desc = None /\
  List.hd_error (fd_message_types_by_name (md_file msg_desc)) = Some (md_name msg_desc).
Proof.
  destruct msg_desc as [id name full_name [parent|] nested file];
    unfold _create_msg_index; cbn [walk_up md_containing_type md_file md_name].
  - split; [|intros [[=] _]].
    intros H. exfalso.
    destruct (find_nested_cases (md_nested_types parent) id 0 [] false)
      as [[i E]|E]; rewrite E in H; cbn [negb] in H; [|discriminate].
    destruct (walk_up parent [i] true) as [[root out]| |] eqn:W;
      cbn [bind] in H; try discriminate.
    apply walk_up_length in W. cbn in W.
    destruct (find_root_cases (fd_message_types_by_name file) (md_name root) 0 out false)
      as [(j & E' & _)|[E' _]]; rewrite E' in H; cbn [negb] in H; [|discriminate].
    injection H as _ ->. cbn in W. lia.
  - cbn [bind md_name].
    destruct (find_root_cases (fd_message_types_by_name file) name 0 [] false)
      as [(j & E & _ & Hj)|[E Hne]]; rewrite E; cbn [negb].
    + split.
      * intros [= ->]. split; [reflexivity|]. apply Hj. reflexivity.
      * intros [_ Hhd]. apply Hj in Hhd. subst j. reflexivity.
    + split; [discriminate|]. intros [_ Hhd]. contradiction.
Qed.

End IndexFacts.

(** ** The claims about the index and its encoding *)

Import ProtobufSerializer ProtobufDeserializer.

Example item_index : _create_msg_index Examples.item = Ret [0; 1].
Proof. reflexivity. Qed.

(** C1, as stated: the index [[0; 1]] written with zig-zag encoding is not
    the three bytes 0x02 0x00 0x02. *)
Lemma encode_0_1_is_not_02_00_02 :
  _encode_varints [] [0; 1] true <> Ret [x02; x00; x02].
Proof. vm_compute. discriminate. Qed.

(** C1, amended: with zig-zag encoding the index [[0; 1]] is written as the
    three bytes 0x04 0x00 0x02; the length prefix 2 is zig-zag encoded like
    the elements, which gives 0x04, then come zig-zag(0) = 0x00 and
    zig-zag(1) = 0x02. *)
Theorem encode_0_1_is_04_00_02 (buf : list byte) :
  _encode_varints buf [0; 1] true = Ret (buf ++ [x04; x00; x02]).
Proof.
  replace (buf ++ [x04; x00; x02]) with (((buf ++ [x04]) ++ [x00]) ++ [x02])
    by (rewrite <- !app_assoc; reflexivity).
  vm_compute. reflexivity.
Qed.

(** C3, as stated: [Order] is the first of two top-level types of its file;
    its index is [[0]] although it is not the only top-level type. *)
Lemma index_0_without_being_only_type :
  ~ (_create_msg_index Examples.order = Ret [0]
     <-> only_top_level_type Examples.order).
Proof.
  intros [H _]. destruct (H eq_refl) as [_ Hnames]. discriminate Hnames.
Qed.

(** C3, amended: the index of a descriptor is [[0]] if and only if it has no
    enclosing type and its name is the first of the file's top-level types;
    encoding [[0]] writes exactly the byte 0x00, and a decoded size of 0
    gives the index [[0]]. *)
Theorem index_0_shorthand :
  (forall t, _create_msg_index t = Ret [0] <-> first_top_level_type t) /\
  (forall buf zigzag, _encode_varints buf [0] zigzag = Ret (buf ++ [x00])) /\
  (forall buf zigzag rest,
      _decode_varint buf zigzag = Ret (0, rest) ->
      _decode_index buf zigzag = Ret ([0], rest)) /\
  (forall zigzag rest, _decode_index (x00 :: rest) zigzag = Ret ([0], rest)).
Proof.
  split; [exact IndexFacts._create_msg_index_root|].
  split; [reflexivity|].
  split.
  - intros buf zigzag rest H. unfold _decode_index. rewrite H. reflexivity.
  - intros [] rest; reflexivity.
Qed.

(** C3: the shorthand at work on [Order], and on the byte 0x00 followed by
    a payload. *)
Lemma index_0_shorthand_witness :
  _create_msg_index Examples.order = Ret [0] /\
  _encode_varints [] [0] true = Ret [x00] /\
  _decode_index [x00; x2a] true = Ret ([0], [x2a]).
Proof.
  destruct index_0_shorthand as (Hidx & Henc & Hdec & _).
  split; [apply Hidx; split; reflexivity|].
  split; [apply (Henc [] true)|].
  apply Hdec. reflexivity.
Defined.

(** C4, as stated: -1 is a 64-bit integer, and without zig-zag encoding the
    encoder has no result on it: its loop does not exit, whatever the number
    of iterations allowed. *)
Lemma varint_round_trip_fails :
  ~ (forall v zigzag,
        - 2 ^ 63 <= v < 2 ^ 63 ->
        exists enc,
          _write_varint [] v zigzag = Ret enc /\
          _decode_varint enc zigzag = Ret (v, []))
  /\ (forall fuel buf, _write_varint_loop fuel buf (-1) = Diverges).
Proof.
  split.
  - intros H. destruct (H (-1) false) as (enc & E & _); [lia|].
    vm_compute in E. discriminate.
  - intros fuel buf. apply VarintFacts._write_varint_loop_negative. lia.
Qed.

(** C4, amended: for every signed 64-bit integer [v], non-negative when
    zig-zag encoding is off, the encoder returns and the decoder reads [v]
    back from its output, leaving what follows it. *)
Theorem varint_round_trip (v : Z) (zigzag : bool) (rest : list byte) :
  - 2 ^ 63 <= v < 2 ^ 63 ->
  (zigzag = false -> 0 <= v) ->
  exists enc,
    _write_varint [] v zigzag = Ret enc /\
    _decode_varint (enc ++ rest) zigzag = Ret (v, rest).
Proof.
  intros Hv Hpos. destruct zigzag.
  - destruct (VarintFacts._write_varint_zigzag [] v Hv) as (enc & E & D).
    exists enc. split; [exact E|apply D].
  - destruct (VarintFacts._write_varint_nonneg [] v (Hpos eq_refl)) as (enc & E & D).
    exists enc. split; [exact E|apply D].
Qed.

Lemma varint_round_trip_witness :
  exists enc,
    _write_varint [] (-3) true = Ret enc /\
    _decode_varint (enc ++ [x07]) true = Ret (-3, [x07]).
Proof.
  apply (varint_round_trip (-3) true [x07]); [lia|discriminate].
Defined.

(** A descriptor that its enclosing type does not list is refused when the
    enclosing type is the first one met on the way up. *)
Example unlisted_at_first_level :
  _create_msg_index
    (mkMessageDescriptor 4 "Note" "shop.Order.Note" (Some Examples.order) []
       Examples.shop_proto)
  = Raise (ValueError "Nested MessageDescriptor not found").
Proof. reflexivity. Qed.

(** C5: on the chain [Leaf] in [Middle] in [Top], where [Top] does not list
    [Middle] among its nested types, no error is raised: the walk skips the
    missing position and returns the two-element index [[0; 0]]. *)
Theorem broken_chain_returns_partial_index :
  _create_msg_index Examples.leaf = Ret [0; 0].
Proof. reflexivity. Qed.

(** ** The deserialize path *)

Module DeserializeFacts.

Lemma ord_zero (b : byte) : ord b = 0 -> b = x00.
Proof.
  unfold ord. intros H.
  assert (Byte.to_N b = 0%N) as E by lia.
  pose proof (Byte.of_to_N b) as Hb. rewrite E in Hb. cbn in Hb. congruence.
Qed.

Lemma ord_range (b : byte) : 0 <= ord b < 256.
Proof. unfold ord. pose proof (Byte.to_N_bounded b). lia. Qed.

(** The signed reading of the first byte is the magic byte only for 0x00. *)
Lemma magic_of_first_byte (b0 : byte) :
  b0 <> x00 -> ((if ord b0 <? 128 then ord b0 else ord b0 - 256) =? _MAGIC_BYTE) = false.
Proof.
  intros Hb. pose proof (ord_range b0) as Hr.
  apply Z.eqb_neq. unfold _MAGIC_BYTE.
  destruct (Z.ltb_spec (ord b0) 128); [|lia].
  intros E. apply Hb, ord_zero, E.
Qed.

Lemma _decode_index_bad_size (buf rest : list byte) (zigzag : bool) (size : Z) :
  _decode_varint buf zigzag = Ret (size, rest) ->
  size < 0 \/ 100000 < size ->
  _decode_index buf zigzag = Raise (DecodeError "Invalid Protobuf msgidx array length").
Proof.
  intros H Hsize. unfold _decode_index. rewrite H. cbn [bind].
  destruct (Z.ltb_spec size 0); [reflexivity|].
  destruct (Z.gtb_spec size 100000); [reflexivity|lia].
Qed.

End DeserializeFacts.

(** C7: the deserializer raises the "message too small" error on fewer than
    six bytes; on six bytes or more it raises the "unknown magic byte" error
    when the first byte is not the magic byte; and past the header it raises
    the "invalid array length" error when the size read for the index is
    negative or above 100000.  Each time the result is the error, not a
    message. *)
Theorem deserialize_rejects
    (parse : MessageType -> list byte -> outcome Message)
    (self : ProtobufDeserializer.t) (ctx : SerializationContext) :
  (forall value,
      (List.length value < 6)%nat ->
      exists e, ProtobufDeserializer.__call__ parse self (Some value) ctx = Raise e
                /\ TooShort e) /\
  (forall b0 rest,
      (6 <= List.length (b0 :: rest))%nat -> b0 <> x00 ->
      exists e, ProtobufDeserializer.__call__ parse self (Some (b0 :: rest)) ctx = Raise e
                /\ BadMagicByte e) /\
  (forall b1 b2 b3 b4 index_and_payload size rest,
      _decode_varint index_and_payload
        (negb (ProtobufDeserializer._use_deprecated_format self)) = Ret (size, rest) ->
      size < 0 \/ 100000 < size ->
      exists e,
        ProtobufDeserializer.__call__ parse self
          (Some (x00 :: b1 :: b2 :: b3 :: b4 :: index_and_payload)) ctx = Raise e
        /\ InvalidFormat e).
Proof.
  split; [|split].
  - intros value Hlen. eexists. split; [|reflexivity].
    unfold ProtobufDeserializer.__call__.
    destruct (Z.ltb_spec (Z.of_nat (List.length value)) 6); [reflexivity|lia].
  - intros b0 rest Hlen Hb0. eexists. split; [|reflexivity].
    unfold ProtobufDeserializer.__call__.
    destruct (Z.ltb_spec (Z.of_nat (List.length (b0 :: rest))) 6); [lia|].
    destruct rest as [|b1 [|b2 [|b3 [|b4 rest]]]]; cbn in Hlen; try lia.
    cbn [List.firstn List.skipn struct_unpack_bI]. rewrite List.firstn_O.
    cbn [bind]. rewrite (DeserializeFacts.magic_of_first_byte b0 Hb0). reflexivity.
  - intros b1 b2 b3 b4 body size rest Hsize Hbad. eexists. split; [|reflexivity].
    unfold ProtobufDeserializer.__call__.
    assert (_decode_varint body (negb (ProtobufDeserializer._use_deprecated_format self))
            = Ret (size, rest) -> body <> []) as Hne.
    { destruct body; [|discriminate]. vm_compute. discriminate. }
    specialize (Hne Hsize).
    destruct (Z.ltb_spec
                (Z.of_nat (List.length (x00 :: b1 :: b2 :: b3 :: b4 :: body))) 6)
      as [Hlt|_].
    { destruct body; [congruence|]. cbn [List.length] in Hlt. lia. }
    cbn [List.firstn List.skipn struct_unpack_bI]. rewrite List.firstn_O.
    cbn [bind]. change (List.skipn 0 body) with body.
    change ((if ord x00 <? 128 then ord x00 else ord x00 - 256) =? _MAGIC_BYTE)
      with true.
    cbn [negb].
    rewrite (DeserializeFacts._decode_index_bad_size _ _ _ _ Hsize Hbad).
    reflexivity.
Qed.

(** C7 on three inputs: five bytes; six bytes starting with 0x01; a header
    followed by the zig-zag size -1. *)
Lemma deserialize_rejects_witness :
  let self := ProtobufDeserializer.mk (mkMessageType 1 Examples.order) [0] false in
  let ctx := mkSerializationContext "orders" "value" in
  let parse := fun (cls : MessageType) (data : list byte) => Ret (mkMessage cls data) in
  (exists e, ProtobufDeserializer.__call__ parse self
               (Some [x00; x00; x00; x00; x07]) ctx = Raise e /\ TooShort e) /\
  (exists e, ProtobufDeserializer.__call__ parse self
               (Some [x01; x00; x00; x00; x07; x00]) ctx = Raise e /\ BadMagicByte e) /\
  (exists e, ProtobufDeserializer.__call__ parse self
               (Some [x00; x00; x00; x00; x07; x01]) ctx = Raise e /\ InvalidFormat e).
Proof.
  intros self ctx parse.
  destruct (deserialize_rejects parse self ctx) as (Hshort & Hmagic & Hsize).
  split; [apply Hshort; cbn; lia|].
  split; [apply Hmagic; [cbn; lia|discriminate]|].
  apply (Hsize x00 x00 x00 x07 [x01] (-1) []); [reflexivity|lia].
Defined.

(** ** The serialize path *)

Module SerializeFacts.

(** What is written does not depend on what the buffer already holds. *)
Lemma _write_varint_loop_buf (fuel : nat) :
  forall (buf : list byte) (val : Z),
    _write_varint_loop fuel buf val
    = omap (app buf) (_write_varint_loop fuel [] val).
Proof.
  induction fuel as [|fuel IH]; intros buf val; [reflexivity|].
  cbn [_write_varint_loop].
  destruct (negb (Z.land val (Z.lnot 127) =? 0)).
  - destruct (_bytes (Z.lor (Z.land val 127) 128)) as [b| |]; try reflexivity.
    cbn [bind]. rewrite (IH (buf ++ [b])), (IH ([] ++ [b])).
    destruct (_write_varint_loop fuel [] (Z.shiftr val 7)); try reflexivity.
    cbn. rewrite <- app_assoc. reflexivity.
  - destruct (_bytes val); reflexivity.
Qed.

Lemma _write_varint_buf (buf : list byte) (val : Z) (zigzag : bool) :
  _write_varint buf val zigzag = omap (app buf) (_write_varint [] val zigzag).
Proof. unfold _write_varint. apply _write_varint_loop_buf. Qed.

Lemma _encode_varints_loop_buf (ints : list Z) (zigzag : bool) :
  forall buf,
    _encode_varints_loop buf ints zigzag
    = omap (app buf) (_encode_varints_loop [] ints zigzag).
Proof.
  induction ints as [|value rest IH]; intros buf; cbn [_encode_varints_loop].
  - cbn. rewrite app_nil_r. reflexivity.
  - rewrite (_write_varint_buf buf).
    destruct (_write_varint [] value zigzag) as [enc| |]; try reflexivity.
    cbn [omap bind]. rewrite (IH (buf ++ enc)), (IH enc).
    destruct (_encode_varints_loop [] rest zigzag); try reflexivity.
    cbn. rewrite <- app_assoc. reflexivity.
Qed.

Lemma _encode_varints_buf (buf : list byte) (ints : list Z) (zigzag : bool) :
  _encode_varints buf ints zigzag = omap (app buf) (_encode_varints [] ints zigzag).
Proof.
  unfold _encode_varints.
  destruct (Z.of_nat (List.length ints) >? 0); [|reflexivity].
  destruct (decide (ints = [0])); [reflexivity|].
  rewrite (_write_varint_buf buf).
  destruct (_write_varint [] (Z.of_nat (List.length ints)) zigzag) as [enc| |];
    try reflexivity.
  cbn [omap bind]. rewrite (_encode_varints_loop_buf ints zigzag (buf ++ enc)),
    (_encode_varints_loop_buf ints zigzag enc).
  destruct (_encode_varints_loop [] ints zigzag); try reflexivity.
  cbn. rewrite <- app_assoc. reflexivity.
Qed.

(** Every write of a varint adds at least one byte. *)
Lemma _write_varint_loop_nonempty (fuel : nat) :
  forall (val : Z) (enc : list byte),
    _write_varint_loop fuel [] val = Ret enc -> enc <> [].
Proof.
  induction fuel as [|fuel IH]; intros val enc H; [discriminate|].
  cbn [_write_varint_loop] in H.
  destruct (negb (Z.land val (Z.lnot 127) =? 0)).
  - destruct (_bytes (Z.lor (Z.land val 127) 128)) as [b| |]; try discriminate.
    cbn [bind] in H. rewrite _write_varint_loop_buf in H.
    destruct (_write_varint_loop fuel [] (Z.shiftr val 7)); try discriminate.
    injection H as <-. discriminate.
  - destruct (_bytes val); try discriminate. injection H as <-. discriminate.
Qed.

Lemma _encode_varints_nonempty (ints : list Z) (zigzag : bool) (enc : list byte) :
  _encode_varints [] ints zigzag = Ret enc -> enc <> [].
Proof.
  unfold _encode_varints.
  destruct (Z.of_nat (List.length ints) >? 0); [|discriminate].
  destruct (decide (ints = [0])); [intros [= <-]; discriminate|].
  destruct (_write_varint [] (Z.of_nat (List.length ints)) zigzag) as [pre| |] eqn:E;
    try discriminate.
  cbn [bind]. rewrite _encode_varints_loop_buf.
  destruct (_encode_varints_loop [] ints zigzag); try discriminate.
  intros [= <-]. apply _write_varint_loop_nonempty in E.
  destruct pre; [congruence|discriminate].
Qed.

Lemma struct_pack_bI_length (b : Z) (i : option Z) (header : list byte) :
  struct_pack_bI b i = Ret header -> List.length header = 5%nat.
Proof.
  unfold struct_pack_bI. destruct i as [i|]; [|discriminate].
  destruct ((-128 <=? b) && (b <=? 127)); [|discriminate].
  destruct ((0 <=? i) && (i <=? 4294967295)); [|discriminate].
  intros [= <-]. reflexivity.
Qed.

Section Envelope.
Context {R : Type}.
Implicit Types (self : ProtobufSerializer.t R) (message : Message).

(** The envelope is the header, the encoded index and the payload. *)
Lemma write_envelope_ret self message out :
  write_envelope self message = Ret out ->
  exists header index,
    struct_pack_bI _MAGIC_BYTE (ProtobufSerializer._schema_id self) = Ret header /\
    _encode_varints [] (ProtobufSerializer._msg_index self)
      (negb (ProtobufSerializer._use_deprecated_format self)) = Ret index /\
    index <> [] /\
    out = Some (header ++ index ++ SerializeToString message).
Proof.
  unfold write_envelope.
  destruct (struct_pack_bI _ _) as [header| |]; try discriminate.
  cbn [bind]. rewrite _encode_varints_buf.
  destruct (_encode_varints [] _ _) as [index| |] eqn:E; try discriminate.
  cbn. intros [= <-]. exists header, index.
  repeat split; try reflexivity.
  - eapply _encode_varints_nonempty, E.
  - rewrite <- app_assoc. reflexivity.
Qed.

(** A first use that returns has asked the store about the subject last,
    has stored the identifier of that answer, and has added the subject to
    the known ones. *)
Lemma first_use_ret self message ctx subject (w : World R) u self1 w1 :
  first_use self message ctx subject w = (Ret u, self1, w1) ->
  same_settings self self1 /\
  ProtobufSerializer._known_subjects self1
  = ProtobufSerializer._known_subjects self ∪ {[ subject ]} /\
  exists earlier c id,
    calls w1 = earlier ++ [c] /\
    call_subject c = subject /\
    call_schema_id c = Some id /\
    ProtobufSerializer._schema_id self1 = Some id.
Proof.
  unfold first_use, after.
  destruct (ProtobufSerializer._use_latest_version self).
  - unfold call_get_latest_version.
    destruct (get_latest_version _ subject (store w)) as [[r|e|] st];
      intros [= <- <- <-].
    split; [repeat split|]. split; [reflexivity|].
    exists (calls w), (Call_get_latest_version subject (Ret r)), (schema_id r).
    repeat split.
  - destruct (_resolve_dependencies self ctx _ w) as [[refs|e|] w'];
      try (intros [= <- <- <-]; fail); try discriminate.
    cbn [ProtobufSerializer._auto_register set_schema_references
         ProtobufSerializer._registry ProtobufSerializer._schema
         ProtobufSerializer._normalize_schemas].
    destruct (ProtobufSerializer._auto_register self).
    + unfold call_register_schema.
      destruct (register_schema _ subject _ _ (store w')) as [[id|e|] st];
        intros [= <- <- <-].
      split; [repeat split|]. split; [reflexivity|].
      eexists (calls w'), (Call_register_schema subject _ _ (Ret id)), id.
      repeat split.
    + unfold call_lookup_schema.
      destruct (lookup_schema _ subject _ _ (store w')) as [[r|e|] st];
        intros [= <- <- <-].
      split; [repeat split|]. split; [reflexivity|].
      eexists (calls w'), (Call_lookup_schema subject _ _ (Ret r)), (schema_id r).
      repeat split.
Qed.

(** A call on a message whose subject is known is the envelope alone: the
    serializer and the world are returned as they were given. *)
Lemma __call___known self message ctx (w : World R) :
  isinstance message (ProtobufSerializer._msg_class self) = true ->
  subject_of self message ctx ∈ ProtobufSerializer._known_subjects self ->
  ProtobufSerializer.__call__ self (Some message) ctx w
  = (write_envelope self message, self, w).
Proof.
  intros Hinst Hknown. unfold ProtobufSerializer.__call__.
  rewrite Hinst. cbn [negb].
  rewrite (bool_decide_eq_true_2 _ Hknown). cbn [negb].
  destruct (write_envelope self message); reflexivity.
Qed.

(** A call that returns: the message is of the bound class, the subject is
    known afterwards, what is returned is the envelope written from the
    serializer as the call leaves it, and the subject was either known
    before, with nothing changed, or resolved by a first use. *)
Lemma __call___ret self message ctx (w : World R) out self1 w1 :
  ProtobufSerializer.__call__ self (Some message) ctx w = (Ret out, self1, w1) ->
  isinstance message (ProtobufSerializer._msg_class self) = true /\
  same_settings self self1 /\
  subject_of self message ctx ∈ ProtobufSerializer._known_subjects self1 /\
  write_envelope self1 message = Ret out /\
  ((subject_of self message ctx ∈ ProtobufSerializer._known_subjects self
    /\ self1 = self /\ w1 = w)
   \/ ((subject_of self message ctx ∉ ProtobufSerializer._known_subjects self)
       /\ (first_use self message ctx (subject_of self message ctx) w
           = (Ret tt, self1, w1)))).
Proof.
  unfold ProtobufSerializer.__call__.
  destruct (isinstance message (ProtobufSerializer._msg_class self));
    cbn [negb]; [|discriminate].
  destruct (decide (subject_of self message ctx
                    ∈ ProtobufSerializer._known_subjects self)) as [Hk|Hk].
  - rewrite (bool_decide_eq_true_2 _ Hk). cbn [negb].
    intros [= Henv <- <-].
    split; [reflexivity|]. split; [repeat split|]. split; [exact Hk|].
    split; [exact Henv|]. left. auto.
  - rewrite (bool_decide_eq_false_2 _ Hk). cbn [negb].
    destruct (first_use self message ctx (subject_of self message ctx) w)
      as [[[[]|e|] self'] w'] eqn:F; try discriminate.
    intros [= Henv <- <-].
    destruct (first_use_ret _ _ _ _ _ _ _ _ F) as (Hsame & Hknown & _).
    split; [reflexivity|]. split; [exact Hsame|].
    split; [rewrite Hknown; apply elem_of_union; right;
            apply elem_of_singleton; reflexivity|].
    split; [exact Henv|]. right. auto.
Qed.

End Envelope.

End SerializeFacts.

(** C8: when the subject of the message is among the known subjects, the
    call leaves the world, and so the store and the list of calls made to
    it, as it found it; a call that did add a store call was therefore for a
    subject not yet known; and once a call has returned, every later call for
    the same subject makes no store call. *)
Theorem known_subject_makes_no_store_call {R : Type}
    (self : ProtobufSerializer.t R) (message : Message)
    (ctx : SerializationContext) (w : World R) :
  let subject := subject_of self message ctx in
  let result := ProtobufSerializer.__call__ self (Some message) ctx w in
  (subject ∈ ProtobufSerializer._known_subjects self ->
   result.2 = w /\ (result.1).2 = self) /\
  (calls result.2 <> calls w ->
   subject ∉ ProtobufSerializer._known_subjects self) /\
  (forall out, (result.1).1 = Ret out ->
   forall message' ctx',
     subject_of (result.1).2 message' ctx' = subject ->
     (ProtobufSerializer.__call__ (result.1).2 (Some message') ctx' result.2).2
     = result.2).
Proof.
  intros subject result.
  assert (forall (s : ProtobufSerializer.t R) m c (v : World R),
             subject_of s m c ∈ ProtobufSerializer._known_subjects s ->
             (ProtobufSerializer.__call__ s (Some m) c v).2 = v
             /\ ((ProtobufSerializer.__call__ s (Some m) c v).1).2 = s) as Hknown.
  { intros s m c v Hin.
    destruct (isinstance m (ProtobufSerializer._msg_class s)) eqn:Hinst.
    - rewrite (SerializeFacts.__call___known s m c v Hinst Hin). auto.
    - unfold ProtobufSerializer.__call__. rewrite Hinst. auto. }
  split; [apply Hknown|]. split.
  - intros Hcalls Hin. apply Hcalls.
    pose proof (Hknown self message ctx w Hin) as [Hw _].
    subst result. rewrite Hw. reflexivity.
  - intros out Hout message' ctx' Hsubject.
    destruct result as [[r self1] w1] eqn:Hres. cbn in Hout, Hsubject |- *.
    subst r. subst result.
    destruct (SerializeFacts.__call___ret _ _ _ _ _ _ _ Hres)
      as (_ & _ & Hin & _).
    apply Hknown. rewrite Hsubject. exact Hin.
Qed.

(** C8 on the stub store: the first call for [orders-value] makes a store
    call, the second makes none. *)
Lemma known_subject_makes_no_store_call_witness :
  let ctx := mkSerializationContext "orders" "value" in
  let first := ProtobufSerializer.__call__ Examples.order_serializer
                 (Some Examples.an_order) ctx Examples.world0 in
  List.length (calls first.2) = 1%nat /\
  (ProtobufSerializer.__call__ (first.1).2 (Some Examples.an_order) ctx first.2).2
  = first.2.
Proof.
  intros ctx first. split; [reflexivity|].
  destruct (known_subject_makes_no_store_call Examples.order_serializer
              Examples.an_order ctx Examples.world0) as (_ & _ & Hlater).
  eapply Hlater; reflexivity.
Defined.

(** C9: serializing [None] returns [None], deserializing [None] returns
    [None], and neither raises; on any other input a serializer that returns
    returns bytes, six at least, and a deserializer that returns returns a
    message. *)
Theorem no_value_is_the_only_silent_case :
  (forall (R : Type) (self : ProtobufSerializer.t R) ctx (w : World R),
      ProtobufSerializer.__call__ self None ctx w = (Ret None, self, w)) /\
  (forall parse self ctx,
      ProtobufDeserializer.__call__ parse self None ctx = Ret None) /\
  (forall (R : Type) (self : ProtobufSerializer.t R) message ctx (w : World R) out,
      ((ProtobufSerializer.__call__ self (Some message) ctx w).1).1 = Ret out ->
      exists data, out = Some data /\ (6 <= List.length data)%nat) /\
  (forall parse self value ctx out,
      ProtobufDeserializer.__call__ parse self (Some value) ctx = Ret out ->
      exists msg, out = Some msg).
Proof.
  split; [reflexivity|]. split; [reflexivity|]. split.
  - intros R self message ctx w out H.
    destruct (ProtobufSerializer.__call__ self (Some message) ctx w)
      as [[r self1] w1] eqn:Hcall.
    cbn in H. subst r.
    destruct (SerializeFacts.__call___ret _ _ _ _ _ _ _ Hcall)
      as (_ & _ & _ & Henv & _).
    destruct (SerializeFacts.write_envelope_ret _ _ _ Henv)
      as (header & index & Hh & _ & Hne & ->).
    eexists. split; [reflexivity|].
    apply SerializeFacts.struct_pack_bI_length in Hh.
    rewrite !length_app, Hh. destruct index; [congruence|cbn; lia].
  - intros parse self value ctx out. unfold ProtobufDeserializer.__call__.
    destruct (Z.of_nat (List.length value) <? 6); [discriminate|].
    destruct (struct_unpack_bI _) as [[magic id]| |]; try discriminate.
    cbn [bind]. destruct (negb (magic =? _MAGIC_BYTE)); [discriminate|].
    destruct (_decode_index _ _) as [[idx payload]| |]; try discriminate.
    cbn [bind].
    destruct (parse _ payload) as [msg|[]|]; try discriminate.
    intros [= <-]. eauto.
Qed.

(** C9 on the stub store: an order is serialized to eight bytes, and these
    are read back as a message. *)
Lemma no_value_is_the_only_silent_case_witness :
  let ctx := mkSerializationContext "orders" "value" in
  let parse := fun (cls : MessageType) (data : list byte) => Ret (mkMessage cls data) in
  (exists data,
      Some [x00; x00; x00; x00; x0c; x00; x08; x2a] = Some data
      /\ (6 <= List.length data)%nat) /\
  (exists msg, Some (mkMessage Examples.Order [x08; x2a]) = Some msg).
Proof.
  intros ctx parse.
  destruct no_value_is_the_only_silent_case as (_ & _ & Hser & Hdes).
  split.
  - apply (Hser nat Examples.order_serializer Examples.an_order ctx Examples.world0).
    reflexivity.
  - apply (Hdes parse (ProtobufDeserializer.mk Examples.Order [0] false)
             [x00; x00; x00; x00; x0c; x00; x08; x2a] ctx).
    reflexivity.
Defined.

(** C10: the serializer has one schema identifier for all its subjects.
    When a call resolves a subject not yet known and returns, the last store
    call was about that subject and its answer's identifier is the one the
    serializer now holds and the one in the envelope returned; and every
    later call for a subject that was known before carries that same
    identifier in its envelope, without asking the store. *)
Theorem schema_id_is_shared {R : Type}
    (self : ProtobufSerializer.t R) (message2 : Message)
    (ctx2 : SerializationContext) (w : World R)
    (data2 : option (list byte)) (self1 : ProtobufSerializer.t R) (w1 : World R) :
  subject_of self message2 ctx2 ∉ ProtobufSerializer._known_subjects self ->
  ProtobufSerializer.__call__ self (Some message2) ctx2 w = (Ret data2, self1, w1) ->
  exists earlier c id2 header index,
    calls w1 = earlier ++ [c] /\
    call_subject c = subject_of self message2 ctx2 /\
    call_schema_id c = Some id2 /\
    ProtobufSerializer._schema_id self1 = Some id2 /\
    struct_pack_bI _MAGIC_BYTE (Some id2) = Ret header /\
    _encode_varints [] (ProtobufSerializer._msg_index self1)
      (negb (ProtobufSerializer._use_deprecated_format self1)) = Ret index /\
    data2 = Some (header ++ index ++ SerializeToString message2) /\
    forall message1 ctx1,
      isinstance message1 (ProtobufSerializer._msg_class self1) = true ->
      subject_of self1 message1 ctx1 ∈ ProtobufSerializer._known_subjects self ->
      ProtobufSerializer.__call__ self1 (Some message1) ctx1 w1
      = (Ret (Some (header ++ index ++ SerializeToString message1)), self1, w1).
Proof.
  intros Hnew Hcall.
  destruct (SerializeFacts.__call___ret _ _ _ _ _ _ _ Hcall)
    as (_ & _ & _ & Henv & [[Hin _]|[_ Hfirst]]); [contradiction|].
  destruct (SerializeFacts.first_use_ret _ _ _ _ _ _ _ _ Hfirst)
    as (_ & Hknown & earlier & c & id2 & Hcalls & Hsubject & Hid & Hheld).
  destruct (SerializeFacts.write_envelope_ret _ _ _ Henv)
    as (header & index & Hh & Hi & _ & ->).
  rewrite Hheld in Hh.
  exists earlier, c, id2, header, index.
  repeat (split; [assumption || reflexivity|]).
  intros message1 ctx1 Hinst Hin.
  rewrite SerializeFacts.__call___known; [|exact Hinst|].
  - unfold write_envelope. rewrite Hheld, Hh. cbn [bind].
    rewrite SerializeFacts._encode_varints_buf, Hi. cbn.
    rewrite <- app_assoc. reflexivity.
  - rewrite Hknown. apply elem_of_union. left. exact Hin.
Qed.

(** C10 on the stub store, which registers [orders-value] as 12 and
    [invoices-value] as 14: after a call on topic [orders] and a call on
    topic [invoices], a call on topic [orders] returns the very bytes of the
    call on [invoices], identifier 14 (0x0e) included. *)
Lemma schema_id_is_shared_witness :
  let orders := mkSerializationContext "orders" "value" in
  let invoices := mkSerializationContext "invoices" "value" in
  let first := ProtobufSerializer.__call__ Examples.order_serializer
                 (Some Examples.an_order) orders Examples.world0 in
  let second := ProtobufSerializer.__call__ (first.1).2
                  (Some Examples.an_order) invoices first.2 in
  exists header index,
    Some [x00; x00; x00; x00; x0e; x00; x08; x2a]
    = Some (header ++ index ++ SerializeToString Examples.an_order) /\
    ProtobufSerializer.__call__ (second.1).2 (Some Examples.an_order) orders second.2
    = (Ret (Some (header ++ index ++ SerializeToString Examples.an_order)),
       (second.1).2, second.2).
Proof.
  intros orders invoices first second.
  destruct (schema_id_is_shared (first.1).2 Examples.an_order invoices first.2
              (Some [x00; x00; x00; x00; x0e; x00; x08; x2a])
              (second.1).2 second.2)
    as (_ & _ & _ & header & index & _ & _ & _ & _ & _ & _ & Hdata & Hlater).
  - apply (bool_decide_eq_false_1 _). vm_compute. reflexivity.
  - vm_compute. reflexivity.
  - exists header, index. split; [exact Hdata|].
    apply Hlater; [reflexivity|].
    apply (bool_decide_eq_true_1 _). vm_compute. reflexivity.
Defined.

(** ** The references of a file *)

Module DependencyFacts.

Section Resolve.
Context {R : Type}.
Variables (self : ProtobufSerializer.t R) (ctx : SerializationContext).

Let subject_for (dep : FileDescriptor) : string :=
  ProtobufSerializer._ref_reference_subject_func self ctx (ArgFile dep).

(** A file without dependencies has no references and asks nothing. *)
Lemma _resolve_dependencies_leaf (file_desc : FileDescriptor) (w : World R) :
  fd_dependencies file_desc = [] ->
  _resolve_dependencies self ctx file_desc w = (Ret [], w).
Proof. destruct file_desc; cbn. intros ->. reflexivity. Qed.

(** [_resolve_dependencies] runs the loop over the file's dependencies,
    starting from no reference. *)
Lemma _resolve_dependencies_eq (file_desc : FileDescriptor) (w : World R) :
  _resolve_dependencies self ctx file_desc w
  = for_dep self ctx (fd_dependencies file_desc) [] w.
Proof.
  destruct file_desc as [name pb deps types]. cbn [fd_dependencies].
  cbn [_resolve_dependencies].
  match goal with
  | |- ?loop deps [] w = _ =>
      enough (forall schema_refs v,
                 loop deps schema_refs v = for_dep self ctx deps schema_refs v)
        as H by apply H
  end.
  induction deps as [|dep rest IH]; intros schema_refs v; [reflexivity|].
  cbn [for_dep]. unfold skips at 1.
  destruct (ProtobufSerializer._skip_known_types self
            && String.prefix "google/protobuf/" (fd_name dep)); [apply IH|].
  unfold sbind.
  destruct (_resolve_dependencies self ctx dep v) as [[dep_refs| |] w1];
    try reflexivity.
  destruct (ProtobufSerializer._auto_register self); unfold sret.
  - destruct (call_register_schema _ _ _ _ w1) as [[id| |] w2]; try reflexivity.
    destruct (call_lookup_schema _ _ _ _ w2) as [[r| |] w3]; try reflexivity.
    apply IH.
  - destruct (call_lookup_schema _ _ _ _ w1) as [[r| |] w3]; try reflexivity.
    apply IH.
Qed.

(** One turn of the loop on a dependency that is not skipped, whose own
    references are [dep_refs], on a store that answers: the dependency is
    registered (when asked to) and looked up under a schema that carries
    [dep_refs], and one reference to it is added. *)
Lemma for_dep_step (dep : FileDescriptor) (rest : list FileDescriptor)
    (schema_refs dep_refs : list SchemaReference) (w w1 : World R) :
  skips self dep = false ->
  store_answers (ProtobufSerializer._registry self) ->
  _resolve_dependencies self ctx dep w = (Ret dep_refs, w1) ->
  exists id r w2,
    for_dep self ctx (dep :: rest) schema_refs w
    = for_dep self ctx rest
        (schema_refs ++ [mkSchemaReference (fd_name dep) (subject_for dep) (version r)])
        w2 /\
    calls w2 = calls w1
               ++ dependency_calls (ProtobufSerializer._auto_register self)
                    (subject_for dep)
                    (mkSchema (_schema_to_str dep) "PROTOBUF" dep_refs) id r.
Proof.
  intros Hskip [Hreg Hlook] Hdep. cbn [for_dep]. rewrite Hskip.
  unfold sbind at 1. rewrite Hdep. unfold sbind, dependency_calls.
  fold (subject_for dep).
  destruct (ProtobufSerializer._auto_register self).
  - unfold call_register_schema, call_lookup_schema, sret.
    destruct (Hreg (subject_for dep)
                (mkSchema (_schema_to_str dep) "PROTOBUF" dep_refs) false (store w1))
      as (id & st1 & E1).
    rewrite E1. cbn [store calls].
    destruct (Hlook (subject_for dep)
                (mkSchema (_schema_to_str dep) "PROTOBUF" dep_refs) false st1)
      as (r & st2 & E2).
    rewrite E2. exists id, r. eexists. split; [reflexivity|].
    cbn [calls]. rewrite <- app_assoc. reflexivity.
  - unfold call_lookup_schema, sret.
    destruct (Hlook (subject_for dep)
                (mkSchema (_schema_to_str dep) "PROTOBUF" dep_refs) false (store w1))
      as (r & st2 & E2).
    rewrite E2. exists 0, r. eexists. split; reflexivity.
Qed.

End Resolve.

End DependencyFacts.

(** C2, as stated: on the stub store the references of [a.proto], which
    imports [b.proto] and [c.proto] where [b.proto] imports [d.proto], are not
    those of [d.proto], [b.proto] and [c.proto]. *)
Lemma references_are_not_d_b_c :
  ~ exists refs,
      (_resolve_dependencies Examples.order_serializer
         (mkSerializationContext "orders" "value") Examples.a_proto
         Examples.world0).1 = Ret refs
      /\ List.map ref_name refs = ["d.proto"; "b.proto"; "c.proto"]%string.
Proof.
  intros (refs & Hrefs & Hnames). vm_compute in Hrefs.
  injection Hrefs as <-. discriminate Hnames.
Qed.

(** C2, amended: for a file A whose dependencies are [B, C] where B depends
    on [D] and C and D depend on nothing, none of them skipped, and a store
    that answers, the references returned for A are those of B and C, in
    that order, one per declared dependency.  The reference of D is not in
    that list: it is the reference list of the schema under which B is
    registered and looked up.  The store is asked about D first, then B,
    then C. *)
Theorem references_are_b_c {R : Type}
    (self : ProtobufSerializer.t R) (ctx : SerializationContext) (w : World R)
    (a b c d : FileDescriptor) :
  fd_dependencies a = [b; c] ->
  fd_dependencies b = [d] ->
  fd_dependencies c = [] ->
  fd_dependencies d = [] ->
  skips self b = false -> skips self c = false -> skips self d = false ->
  store_answers (ProtobufSerializer._registry self) ->
  let subject := fun dep => ProtobufSerializer._ref_reference_subject_func self ctx (ArgFile dep) in
  let auto := ProtobufSerializer._auto_register self in
  exists (id_d id_b id_c : Z) (r_d r_b r_c : RegisteredSchema) (w' : World R),
    let ref_d := mkSchemaReference (fd_name d) (subject d) (version r_d) in
    let ref_b := mkSchemaReference (fd_name b) (subject b) (version r_b) in
    let ref_c := mkSchemaReference (fd_name c) (subject c) (version r_c) in
    let schema_d := mkSchema (_schema_to_str d) "PROTOBUF" [] in
    let schema_b := mkSchema (_schema_to_str b) "PROTOBUF" [ref_d] in
    let schema_c := mkSchema (_schema_to_str c) "PROTOBUF" [] in
    _resolve_dependencies self ctx a w = (Ret [ref_b; ref_c], w') /\
    calls w' = calls w
               ++ dependency_calls auto (subject d) schema_d id_d r_d
               ++ dependency_calls auto (subject b) schema_b id_b r_b
               ++ dependency_calls auto (subject c) schema_c id_c r_c.
Proof.
  intros Ha Hb Hc Hd Sb Sc Sd Hstore subject auto.
  pose proof (DependencyFacts._resolve_dependencies_leaf self ctx) as Hleaf.
  (* B: its loop has one turn, for D *)
  destruct (DependencyFacts.for_dep_step self ctx d [] [] [] w w Sd Hstore
              (Hleaf d w Hd)) as (id_d & r_d & w1 & Eb & Cd).
  assert (_resolve_dependencies self ctx b w
          = (Ret [mkSchemaReference (fd_name d) (subject d) (version r_d)], w1))
    as Hresolve_b.
  { rewrite DependencyFacts._resolve_dependencies_eq, Hb. exact Eb. }
  (* A: one turn for B, one turn for C *)
  destruct (DependencyFacts.for_dep_step self ctx b [c] [] _ w w1 Sb Hstore
              Hresolve_b) as (id_b & r_b & w2 & Ea1 & Cb).
  destruct (DependencyFacts.for_dep_step self ctx c []
              [mkSchemaReference (fd_name b) (subject b) (version r_b)] []
              w2 w2 Sc Hstore (Hleaf c w2 Hc)) as (id_c & r_c & w3 & Ea2 & Cc).
  exists id_d, id_b, id_c, r_d, r_b, r_c, w3. cbv zeta. split.
  - rewrite DependencyFacts._resolve_dependencies_eq, Ha, Ea1. exact Ea2.
  - rewrite Cc, Cb, Cd, <- !app_assoc. reflexivity.
Qed.

(** C2 on the stub store, which registers schemas automatically. *)
Lemma references_are_b_c_witness :
  exists w',
    _resolve_dependencies Examples.order_serializer
      (mkSerializationContext "orders" "value") Examples.a_proto Examples.world0
    = (Ret [mkSchemaReference "b.proto" "b.proto" 1;
            mkSchemaReference "c.proto" "c.proto" 1], w')
    /\ List.map call_subject (calls w')
       = ["d.proto"; "d.proto"; "b.proto"; "b.proto"; "c.proto"; "c.proto"]%string.
Proof.
  destruct (references_are_b_c Examples.order_serializer
              (mkSerializationContext "orders" "value") Examples.world0
              Examples.a_proto Examples.b_proto Examples.c_proto Examples.d_proto)
    as (id_d & id_b & id_c & r_d & r_b & r_c & w' & Hrefs & Hcalls);
    try reflexivity.
  - split; intros subject schema normalize st; eexists; eexists; reflexivity.
  - exists w'. pose proof Hrefs as Hrun. vm_compute in Hrun.
    injection Hrun as Hvb Hvc Hw.
    change (1 = version r_b) in Hvb. change (1 = version r_c) in Hvc.
    split.
    + rewrite Hrefs, <- Hvb, <- Hvc. reflexivity.
    + rewrite <- Hw. reflexivity.
Defined.

(** ** Configuration dictionaries *)

Module DictFacts.

Lemma dict_get_set (key key' : string) (v : pyval) (d : dict) :
  dict_get key' (dict_set key v d)
  = if String.eqb key key' then Some v else dict_get key' d.
Proof.
  unfold dict_get. induction d as [|[k x] rest IH]; cbn.
  - destruct (String.eqb_spec key key'); reflexivity.
  - destruct (String.eqb_spec k key) as [->|Hk]; cbn.
    + destruct (String.eqb_spec key key'); reflexivity.
    + destruct (String.eqb_spec k key') as [->|Hk'].
      * destruct (String.eqb_spec key key'); [congruence|reflexivity].
      * exact IH.
Qed.

Lemma dict_get_None (key : string) (d : dict) :
  dict_get key d = None <-> ~ List.In key (dict_keys d).
Proof.
  unfold dict_get, dict_keys. induction d as [|[k x] rest IH]; cbn.
  - tauto.
  - destruct (String.eqb_spec k key) as [->|Hk]; cbn.
    + split; [discriminate|]. intros H. exfalso. apply H. left. reflexivity.
    + rewrite IH. tauto.
Qed.

Lemma dict_get_In (key : string) (v : pyval) (d : dict) :
  dict_get key d = Some v -> List.In key (dict_keys d).
Proof.
  intros H. destruct (List.in_dec String.string_dec key (dict_keys d)) as [?|Hn];
    [assumption|].
  apply dict_get_None in Hn. congruence.
Qed.

(** After [d.update(c)] an option has the value [c] gives it, or the one
    it had in [d]. *)
Lemma dict_get_update (key : string) (c : dict) :
  is_dict c ->
  forall d,
    dict_get key (dict_update d c)
    = match dict_get key c with Some v => Some v | None => dict_get key d end.
Proof.
  unfold is_dict, dict_update.
  induction c as [|[k x] rest IH]; intros Hnd d; [reflexivity|].
  cbn [List.fold_left fst snd]. cbn in Hnd. apply List.NoDup_cons_iff in Hnd as [Hk Hnd].
  rewrite (IH Hnd). rewrite dict_get_set.
  unfold dict_get at 3. cbn [List.find fst].
  destruct (String.eqb_spec k key) as [->|Hne]; cbn [option_map snd].
  - apply dict_get_None in Hk. rewrite Hk. reflexivity.
  - reflexivity.
Qed.

Lemma dict_keys_set (key key' : string) (v : pyval) (d : dict) :
  List.In key' (dict_keys (dict_set key v d))
  <-> key' = key \/ List.In key' (dict_keys d).
Proof.
  unfold dict_keys. induction d as [|[k x] rest IH]; cbn.
  - intuition congruence.
  - destruct (String.eqb_spec k key) as [->|Hk]; cbn.
    + intuition congruence.
    + rewrite IH. intuition congruence.
Qed.

Lemma dict_keys_update (key : string) (c : dict) :
  forall d,
    List.In key (dict_keys (dict_update d c))
    <-> List.In key (dict_keys d) \/ List.In key (dict_keys c).
Proof.
  unfold dict_update. induction c as [|[k x] rest IH]; intros d.
  - cbn. tauto.
  - cbn [List.fold_left fst snd]. rewrite IH, dict_keys_set. cbn. intuition congruence.
Qed.

(** What [pop] leaves: the other keys, with their values. *)
Lemma dict_get_remove (key key' : string) (d : dict) :
  dict_get key' (List.filter (fun kv => negb (String.eqb (fst kv) key)) d)
  = if String.eqb key key' then None else dict_get key' d.
Proof.
  unfold dict_get. induction d as [|[k x] rest IH]; cbn.
  - destruct (String.eqb key key'); reflexivity.
  - destruct (String.eqb_spec k key) as [->|Hk]; cbn.
    + rewrite IH. destruct (String.eqb_spec key key'); reflexivity.
    + destruct (String.eqb_spec k key') as [->|Hk'].
      * destruct (String.eqb_spec key key'); [congruence|reflexivity].
      * exact IH.
Qed.

Lemma dict_keys_remove (key key' : string) (d : dict) :
  List.In key' (dict_keys (List.filter (fun kv => negb (String.eqb (fst kv) key)) d))
  <-> key' <> key /\ List.In key' (dict_keys d).
Proof.
  unfold dict_keys. rewrite !List.in_map_iff. split.
  - intros ([k x] & <- & Hin). apply List.filter_In in Hin as [Hin Hne].
    cbn in *. split.
    + intros ->. rewrite String.eqb_refl in Hne. discriminate.
    + exists (k, x). auto.
  - intros [Hne ([k x] & <- & Hin)]. exists (k, x). split; [reflexivity|].
    apply List.filter_In. split; [exact Hin|]. cbn in *.
    destruct (String.eqb_spec k key); [contradiction|reflexivity].
Qed.

Lemma pop_bool_eq (key msg : string) (d : dict) :
  pop_bool key msg d
  = match dict_get key d with
    | Some (VBool b) =>
        Ret (b, List.filter (fun kv => negb (String.eqb (fst kv) key)) d)
    | Some _ => Raise (ValueError msg)
    | None => Raise (KeyError key)
    end.
Proof.
  unfold pop_bool, dict_pop. destruct (dict_get key d) as [[]|]; reflexivity.
Qed.

Lemma pop_callable_eq (key msg : string) (d : dict) :
  pop_callable key msg d
  = match dict_get key d with
    | Some (VCallable f) =>
        Ret (f, List.filter (fun kv => negb (String.eqb (fst kv) key)) d)
    | Some _ => Raise (ValueError msg)
    | None => Raise (KeyError key)
    end.
Proof.
  unfold pop_callable, dict_pop. destruct (dict_get key d) as [[]|]; reflexivity.
Qed.

End DictFacts.

(** ** Construction *)

Module ConfigFacts.

Ltac eval_eqb :=
  repeat match goal with
         | |- context [String.eqb ?a ?b] =>
             let r := eval vm_compute in (String.eqb a b) in
             change (String.eqb a b) with r
         end;
  cbv iota.

(** The value an option has once the configuration is laid over the
    defaults: the one given, or the default. *)
Lemma merged_option (defaults c : dict) (key : string) (dflt : pyval) :
  is_dict c ->
  dict_get key defaults = Some dflt ->
  exists e,
    dict_get key (dict_update defaults c) = Some e /\
    (dict_get key c = Some e \/ (dict_get key c = None /\ e = dflt)).
Proof.
  intros Hd Hdflt. rewrite DictFacts.dict_get_update by exact Hd.
  destruct (dict_get key c) as [v|]; eauto.
Qed.

Lemma _create_msg_index_outcome (msg_desc : MessageDescriptor) :
  (exists idx, _create_msg_index msg_desc = Ret idx) \/
  (exists e, _create_msg_index msg_desc = Raise e /\ TypeNotFound e).
Proof.
  unfold _create_msg_index.
  assert (forall d l f,
             (exists r, walk_up d l f = Ret r)
             \/ walk_up d l f = Raise (ValueError "Nested MessageDescriptor not found"))
    as Hwalk.
  { induction d as [id name full_name nested file
                   |id name full_name parent nested file IH]
      using IndexFacts.containing_chain_ind; intros l f; cbn.
    - left. eauto.
    - destruct (find_nested (md_nested_types parent) id 0 l f) as [l' [|]]; cbn.
      + apply IH.
      + right. reflexivity. }
  destruct (Hwalk msg_desc [] false) as [[[root idx] ->]| ->]; cbn [bind].
  - destruct (find_root _ _ 0 idx false) as [l [|]]; cbn.
    + left. eauto.
    + right. eexists. split; [reflexivity|]. right. reflexivity.
  - right. eexists. split; [reflexivity|]. left. reflexivity.
Qed.

(** No error is both of the configuration and of the index. *)
Lemma ConfigurationError_not_TypeNotFound (e : exn) :
  ConfigurationError e -> TypeNotFound e -> False.
Proof.
  intros [->|[->|(msg & -> & Hmsg)]] [Ht|Ht]; try discriminate;
    injection Ht as ->;
    (destruct Hmsg as [Hin|Hpre]; [|vm_compute in Hpre; discriminate]);
    cbn in Hin; intuition discriminate.
Qed.

Section SerializerConf.
Context {R : Type}.
Variables (tsn rsn : strategy) (msg_type : MessageType)
  (registry : SchemaRegistryClient R).

Abbreviation defaults := (ProtobufSerializer._default_conf tsn rsn).
Abbreviation init := (ProtobufSerializer.__init__ tsn rsn msg_type registry).

(** An option of the wrong type refuses the configuration. *)
Lemma wrong_bool (c : dict) (key : string) (e dflt : pyval) :
  List.In key bool_options ->
  is_bool e = false -> is_bool dflt = true ->
  dict_get key c = Some e \/ (dict_get key c = None /\ e = dflt) ->
  serializer_conf_refused defaults (Some c).
Proof.
  intros Hkey He Hdflt [Hget|[_ ->]]; [|congruence].
  right. exists c. split; [reflexivity|]. right. right.
  exists key, e. split; [exact Hget|]. left. auto.
Qed.

Lemma wrong_callable (c : dict) (key : string) (e dflt : pyval) :
  List.In key callable_options ->
  is_callable e = false -> is_callable dflt = true ->
  dict_get key c = Some e \/ (dict_get key c = None /\ e = dflt) ->
  serializer_conf_refused defaults (Some c).
Proof.
  intros Hkey He Hdflt [Hget|[_ ->]]; [|congruence].
  right. exists c. split; [reflexivity|]. right. right.
  exists key, e. split; [exact Hget|]. right. auto.
Qed.

Lemma refused_error (msg : string) :
  List.In msg configuration_messages ->
  exists e : exn, @Raise (ProtobufSerializer.t R) (ValueError msg) = Raise e
                  /\ ConfigurationError e.
Proof.
  intros Hin. eexists. split; [reflexivity|]. right. right. eauto.
Qed.

Ltac refuse_bool H :=
  left; split;
  [ eapply wrong_bool; [| | |exact H]; [cbn; tauto|reflexivity|reflexivity]
  | apply refused_error; cbn; tauto ].

Ltac refuse_callable H :=
  left; split;
  [ eapply wrong_callable; [| | |exact H]; [cbn; tauto|reflexivity|reflexivity]
  | apply refused_error; cbn; tauto ].

(** A configuration with the flag is either refused, with an error of the
    configuration, or accepted, and then construction is the computation
    of the index. *)
Lemma __init___cases (c : dict) :
  is_dict c ->
  dict_get "use.deprecated.format" c <> None ->
  (serializer_conf_refused defaults (Some c)
   /\ exists e, init (Some c) = Raise e /\ ConfigurationError e)
  \/ (~ serializer_conf_refused defaults (Some c)
      /\ exists make : list Z -> ProtobufSerializer.t R,
          init (Some c)
          = (do msg_index <- _create_msg_index (DESCRIPTOR msg_type) ;;
             Ret (make msg_index))
          /\ forall idx, ProtobufSerializer._msg_index (make idx) = idx).
Proof.
  intros Hd Hflag. unfold ProtobufSerializer.__init__, dict_contains.
  destruct (dict_get "use.deprecated.format" c) as [vflag|] eqn:Eflag;
    [clear Hflag|congruence].
  cbn [negb].
  destruct (merged_option defaults c "auto.register.schemas" _ Hd eq_refl)
    as (e1 & E1 & H1).
  destruct (merged_option defaults c "normalize.schemas" _ Hd eq_refl)
    as (e2 & E2 & H2).
  destruct (merged_option defaults c "use.latest.version" _ Hd eq_refl)
    as (e3 & E3 & H3).
  destruct (merged_option defaults c "skip.known.types" _ Hd eq_refl)
    as (e4 & E4 & H4).
  destruct (merged_option defaults c "use.deprecated.format" _ Hd eq_refl)
    as (e5 & E5 & H5).
  destruct (merged_option defaults c "subject.name.strategy" _ Hd eq_refl)
    as (e6 & E6 & H6).
  destruct (merged_option defaults c "reference.subject.name.strategy" _ Hd eq_refl)
    as (e7 & E7 & H7).
  rewrite DictFacts.pop_bool_eq, E1.
  destruct e1 as [|auto| | |]; try (refuse_bool H1). cbn [bind].
  rewrite DictFacts.pop_bool_eq, !DictFacts.dict_get_remove. eval_eqb.
  rewrite E2.
  destruct e2 as [|norm| | |]; try (refuse_bool H2). cbn [bind].
  rewrite DictFacts.pop_bool_eq, !DictFacts.dict_get_remove. eval_eqb.
  rewrite E3.
  destruct e3 as [|latest| | |]; try (refuse_bool H3). cbn [bind].
  destruct (latest && auto) eqn:Hconflict.
  { apply andb_prop in Hconflict as [-> ->]. left. split.
    - right. exists c. split; [reflexivity|]. left. unfold enabled. split.
      + destruct H1 as [->|[-> _]]; reflexivity.
      + destruct H3 as [->|[_ H3]]; [reflexivity|discriminate H3].
    - apply refused_error. cbn. tauto. }
  rewrite DictFacts.pop_bool_eq, !DictFacts.dict_get_remove. eval_eqb.
  rewrite E4.
  destruct e4 as [|skip| | |]; try (refuse_bool H4). cbn [bind].
  rewrite DictFacts.pop_bool_eq, !DictFacts.dict_get_remove. eval_eqb.
  rewrite E5.
  destruct e5 as [|deprecated| | |]; try (refuse_bool H5). cbn [bind].
  rewrite DictFacts.pop_callable_eq, !DictFacts.dict_get_remove. eval_eqb.
  rewrite E6.
  destruct e6 as [| | | |subject_name_func]; try (refuse_callable H6). cbn [bind].
  rewrite DictFacts.pop_callable_eq, !DictFacts.dict_get_remove. eval_eqb.
  rewrite E7.
  destruct e7 as [| | | |reference_func]; try (refuse_callable H7). cbn [bind].
  match goal with
  | |- context [List.length ?l] => destruct l as [|[k x] rest] eqn:Erem
  end.
  - (* nothing is left: the configuration is accepted *)
    right. split.
    + intros [Hom|(c' & [= <-] & [[Hauto Hlatest]|[(key & Hin & Hnot)|Hwrong]])].
      * cbn in Hom. congruence.
      * unfold enabled in Hauto, Hlatest.
        assert (auto = true) as ->.
        { destruct H1 as [H1|[H1 Hd1]]; rewrite H1 in Hauto; [|cbn in Hd1];
            congruence. }
        assert (latest = true) as ->.
        { destruct H3 as [H3|[H3 Hd3]]; rewrite H3 in Hlatest; [congruence|].
          vm_compute in Hlatest. discriminate Hlatest. }
        discriminate Hconflict.
      * assert (List.In key (dict_keys (@nil (string * pyval)))) as Habs; [|destruct Habs].
        rewrite <- Erem. rewrite !DictFacts.dict_keys_remove.
        rewrite DictFacts.dict_keys_update.
        cbn in Hnot. repeat split; try (intros ->; apply Hnot; tauto).
        right. exact Hin.
      * destruct Hwrong as (key & v & Hget & [[Hkey Hv]|[Hkey Hv]]);
          cbn in Hkey;
          repeat (destruct Hkey as [<-|Hkey]; [|]); try contradiction;
          match goal with
          | H : dict_get ?k c = Some _ \/ _ |- _ =>
              match type of Hget with
              | dict_get k c = _ =>
                  destruct H as [H|[H _]]; rewrite H in Hget;
                  [injection Hget as <-; discriminate Hv|discriminate Hget]
              end
          end.
    + eexists (fun idx => ProtobufSerializer.mk _ _ _ _ _ _ _ idx _ _ _ _ _).
      split; reflexivity.
  - (* a key is left: it is not a recognized one *)
    left. split.
    + right. exists c. split; [reflexivity|]. right. left. exists k.
      assert (List.In k (dict_keys ((k, x) :: rest))) as Hin by (left; reflexivity).
      rewrite <- Erem in Hin. rewrite !DictFacts.dict_keys_remove in Hin.
      rewrite DictFacts.dict_keys_update in Hin.
      destruct Hin as (N7 & N6 & N5 & N4 & N3 & N2 & N1 & [Hin|Hin]).
      * cbn in Hin. intuition congruence.
      * split; [exact Hin|]. cbn. intuition congruence.
    + eexists. split; [reflexivity|]. right. right. eexists.
      split; [reflexivity|]. right.
      destruct (String.concat ", " (dict_keys ((k, x) :: rest))); reflexivity.
Qed.

(** Without the flag the serializer is refused at once. *)
Lemma __init___flag_omitted (conf : option dict) :
  flag_omitted conf ->
  init conf = Raise (RuntimeError ProtobufSerializer.flag_not_set).
Proof.
  unfold ProtobufSerializer.__init__, dict_contains.
  destruct conf as [c|]; cbn; [|reflexivity]. intros ->. reflexivity.
Qed.

End SerializerConf.

Section DeserializerConf.
Variables (GetPrototype : MessageDescriptor -> MessageType)
  (message_type : MessageType).

Abbreviation dinit := (ProtobufDeserializer.__init__ GetPrototype message_type).

Lemma deserializer_flag_omitted (conf : option dict) :
  flag_omitted conf ->
  dinit conf = Raise (RuntimeError ProtobufDeserializer.flag_not_set).
Proof.
  unfold ProtobufDeserializer.__init__, dict_contains.
  destruct conf as [c|]; cbn; [|reflexivity]. intros ->. reflexivity.
Qed.

(** With the flag, the deserializer looks at the flag's type and at
    nothing else. *)
Lemma deserializer_cases (c : dict) :
  is_dict c ->
  dict_get "use.deprecated.format" c <> None ->
  (deserializer_conf_refused (Some c)
   /\ exists e, dinit (Some c) = Raise e /\ ConfigurationError e)
  \/ (~ deserializer_conf_refused (Some c)
      /\ exists make : list Z -> ProtobufDeserializer.t,
          dinit (Some c)
          = (do msg_index <- _create_msg_index (DESCRIPTOR message_type) ;;
             Ret (make msg_index))
          /\ forall idx, ProtobufDeserializer._msg_index (make idx) = idx).
Proof.
  intros Hd Hflag. unfold ProtobufDeserializer.__init__, dict_contains.
  destruct (dict_get "use.deprecated.format" c) as [vflag|] eqn:Eflag;
    [clear Hflag|congruence].
  cbn [negb].
  rewrite DictFacts.pop_bool_eq, DictFacts.dict_get_update, Eflag by exact Hd.
  assert (is_bool vflag = false ->
          deserializer_conf_refused (Some c)
          /\ exists e,
              @Raise ProtobufDeserializer.t
                (ValueError "use.deprecated.format must be a boolean value")
              = Raise e /\ ConfigurationError e) as Hrefuse.
  { intros Hv. split.
    - right. exists c. split; [reflexivity|].
      exists "use.deprecated.format"%string, vflag.
      split; [exact Eflag|]. left. split; [left; reflexivity|exact Hv].
    - eexists. split; [reflexivity|]. right. right. eexists.
      split; [reflexivity|]. left. cbn. tauto. }
  destruct vflag as [|deprecated| | |]; try (left; apply Hrefuse; reflexivity).
  cbn [bind]. right. split.
  - intros [Hom|(c' & [= <-] & key & v & Hget & [[Hkey Hv]|[[] _]])].
    + cbn in Hom. congruence.
    + destruct Hkey as [<-|[]]. rewrite Eflag in Hget.
      injection Hget as <-. discriminate Hv.
  - eexists (fun idx => ProtobufDeserializer.mk _ idx _). split; reflexivity.
Qed.

End DeserializerConf.

(** From the two cases to the two halves of the claim. *)
Lemma construction_from_cases {T : Type} (built : outcome T) (refused : Prop)
    (index : outcome (list Z)) (index_of : T -> list Z) :
  (refused /\ exists e, built = Raise e /\ ConfigurationError e)
  \/ (~ refused
      /\ exists make : list Z -> T,
          built = (do msg_index <- index ;; Ret (make msg_index))
          /\ forall idx, index_of (make idx) = idx) ->
  (exists idx, index = Ret idx) \/ (exists e, index = Raise e /\ TypeNotFound e) ->
  ((exists e, built = Raise e /\ ConfigurationError e) <-> refused) /\
  (~ refused ->
   (exists self, built = Ret self /\ index = Ret (index_of self))
   \/ (exists e, built = Raise e /\ TypeNotFound e /\ index = Raise e)).
Proof.
  intros [[Href Herr]|[Hok (make & Hbuilt & Hidx)]] Hindex.
  - split; [tauto|contradiction].
  - assert ((exists self, built = Ret self /\ index = Ret (index_of self))
            \/ (exists e, built = Raise e /\ TypeNotFound e /\ index = Raise e))
      as Hresult.
    { destruct Hindex as [[idx Hi]|(e & Hi & He)]; rewrite Hi in Hbuilt |- *.
      - left. exists (make idx). rewrite Hidx. auto.
      - right. exists e. auto. }
    split; [|intros _; exact Hresult].
    split; [|contradiction].
    intros (e & He & Hconf). exfalso.
    destruct Hresult as [(self & Hs & _)|(e' & He' & Htype & _)]; [congruence|].
    rewrite He in He'. injection He' as <-.
    exact (ConfigurationError_not_TypeNotFound e Hconf Htype).
Qed.

End ConfigFacts.

(** The sample serializer is what [__init__] builds from the flag alone. *)
Example order_serializer_built :
  ProtobufSerializer.__init__ Examples.by_topic Examples.by_file_name
    Examples.Order Examples.counting_store
    (Some [("use.deprecated.format", VBool false)])
  = Ret Examples.order_serializer.
Proof. reflexivity. Qed.

(** C6, as stated, fails twice.  A serializer given the flag alone, bound to
    a type whose descriptor is not found in its file, is not built, and the
    error is not one of the configuration; and a deserializer given the flag
    and an option it does not know is built. *)
Lemma construction_outside_the_four_cases :
  let flag_only := Some [("use.deprecated.format", VBool false)] in
  let with_unknown :=
    Some [("use.deprecated.format", VBool false); ("no.such.option", VInt 1)] in
  (~ serializer_conf_refused
       (ProtobufSerializer._default_conf Examples.by_topic Examples.by_file_name)
       flag_only
   /\ ProtobufSerializer.__init__ Examples.by_topic Examples.by_file_name
        Examples.Stray Examples.counting_store flag_only
      = Raise (ValueError "MessageDescriptor not found in file")) /\
  (unrecognized ["use.deprecated.format"]
     [("use.deprecated.format", VBool false); ("no.such.option", VInt 1)]
   /\ ProtobufDeserializer.__init__ (mkMessageType 1) Examples.Order with_unknown
      = Ret (ProtobufDeserializer.mk Examples.Order [0] false)).
Proof.
  intros flag_only with_unknown. split; split.
  - intros [Hom|(c & [= <-] & [[_ Hlatest]|[(key & Hin & Hnot)|Hwrong]])].
    + discriminate Hom.
    + discriminate Hlatest.
    + apply Hnot. destruct Hin as [<-|[]]. cbn. tauto.
    + destruct Hwrong as (key & v & Hget & Hkind).
      unfold dict_get in Hget. cbn [List.find fst] in Hget.
      destruct (String.eqb_spec "use.deprecated.format" key) as [<-|Hne];
        [|discriminate Hget].
      injection Hget as <-.
      destruct Hkind as [[_ Hv]|[Hkey _]]; [discriminate Hv|].
      cbn in Hkey. intuition discriminate.
  - reflexivity.
  - exists "no.such.option"%string. split; [cbn; tauto|].
    cbn. intuition discriminate.
  - reflexivity.
Qed.

(** C6, amended.  Construction of the serializer raises an error of the
    configuration exactly when the flag is omitted, auto-registration and
    use of the latest version are both enabled, an option name is not
    recognized, or an option value has the wrong type.  Construction of the
    deserializer, for a configuration that names no option but the flag,
    raises such an error exactly when the flag is omitted or is not a
    boolean.  In every other case construction is the computation of the
    bound type's index: it returns the object holding that index when the
    computation returns, and fails with the error of the index otherwise. *)
Theorem construction_checks {R : Type} (tsn rsn : strategy)
    (GetPrototype : MessageDescriptor -> MessageType)
    (msg_type : MessageType) (registry : SchemaRegistryClient R)
    (conf : option dict) :
  (forall c, conf = Some c -> is_dict c) ->
  let defaults := ProtobufSerializer._default_conf tsn rsn in
  let serializer := ProtobufSerializer.__init__ tsn rsn msg_type registry conf in
  let deserializer := ProtobufDeserializer.__init__ GetPrototype msg_type conf in
  let index := _create_msg_index (DESCRIPTOR msg_type) in
  (((exists e, serializer = Raise e /\ ConfigurationError e)
    <-> serializer_conf_refused defaults conf) /\
   (~ serializer_conf_refused defaults conf ->
    (exists self, serializer = Ret self
                  /\ index = Ret (ProtobufSerializer._msg_index self))
    \/ (exists e, serializer = Raise e /\ TypeNotFound e /\ index = Raise e))) /\
  ((forall c key, conf = Some c -> List.In key (dict_keys c) ->
                  key = "use.deprecated.format"%string) ->
   ((exists e, deserializer = Raise e /\ ConfigurationError e)
    <-> deserializer_conf_refused conf) /\
   (~ deserializer_conf_refused conf ->
    (exists self, deserializer = Ret self
                  /\ index = Ret (ProtobufDeserializer._msg_index self))
    \/ (exists e, deserializer = Raise e /\ TypeNotFound e /\ index = Raise e))).
Proof.
  intros Hdict defaults serializer deserializer index.
  pose proof (ConfigFacts._create_msg_index_outcome (DESCRIPTOR msg_type)) as Hindex.
  assert (flag_omitted conf \/ exists c, conf = Some c
                                         /\ dict_get "use.deprecated.format" c <> None)
    as [Hom|(c & -> & Hflag)].
  { destruct conf as [c|]; [|left; exact I].
    destruct (dict_get "use.deprecated.format" c) eqn:E.
    - right. exists c. split; [reflexivity|congruence].
    - left. exact E. }
  - split; [|intros _]; apply ConfigFacts.construction_from_cases; try exact Hindex;
      left; (split; [left; exact Hom|]); eexists; (split; [|]).
    + apply ConfigFacts.__init___flag_omitted, Hom.
    + left. reflexivity.
    + apply ConfigFacts.deserializer_flag_omitted, Hom.
    + right. left. reflexivity.
  - split; [|intros _]; apply ConfigFacts.construction_from_cases; try exact Hindex.
    + apply ConfigFacts.__init___cases; [apply Hdict; reflexivity|exact Hflag].
    + apply ConfigFacts.deserializer_cases; [apply Hdict; reflexivity|exact Hflag].
Qed.

(** C6 on a configuration that asks for the latest version and leaves
    auto-registration at its default, enabled. *)
Lemma construction_checks_witness :
  let conf := Some [("use.deprecated.format", VBool false);
                    ("use.latest.version", VBool true)] in
  exists e,
    ProtobufSerializer.__init__ Examples.by_topic Examples.by_file_name
      Examples.Order Examples.counting_store conf = Raise e
    /\ ConfigurationError e.
Proof.
  intros conf.
  destruct (construction_checks Examples.by_topic Examples.by_file_name
              (mkMessageType 1) Examples.Order Examples.counting_store conf)
    as [[Hiff _] _].
  - intros c [= <-]. unfold is_dict. cbn.
    repeat constructor; cbn; intuition discriminate.
  - apply Hiff. right. eexists. split; [reflexivity|].
    left. split; reflexivity.
Defined.

(** * Further properties *)

(** ** The varint codec, beyond the round trip *)

Module VarintLength.

Lemma zigzag_any_nonneg (v : Z) : 0 <= Z.lxor (Z.shiftl v 1) (Z.shiftr v 63).
Proof. rewrite Z.lxor_nonneg, Z.shiftl_nonneg, Z.shiftr_nonneg. tauto. Qed.

(** The zig-zag transform of a signed 64-bit integer, in plain arithmetic. *)
Lemma zigzag_value (v : Z) :
  - 2 ^ 63 <= v < 2 ^ 63 ->
  Z.lxor (Z.shiftl v 1) (Z.shiftr v 63) = if v <? 0 then - 2 * v - 1 else 2 * v.
Proof.
  intros Hv. rewrite Z.shiftl_mul_pow2, Z.shiftr_div_pow2 by lia.
  change (2 ^ 1) with 2. destruct (Z.ltb_spec v 0) as [Hneg|Hpos].
  - assert (v / 2 ^ 63 = -1) as ->.
    { symmetry. apply (Z.div_unique v (2 ^ 63) (-1) (v + 2 ^ 63)); lia. }
    rewrite Z.lxor_m1_r. unfold Z.lnot. lia.
  - rewrite (Z.div_small v) by lia. rewrite Z.lxor_0_r. lia.
Qed.

Lemma _write_varint_loop_one (fuel : nat) (val : Z) (enc : list byte) :
  0 <= val < 128 ->
  _write_varint_loop fuel [] val = Ret enc -> List.length enc = 1%nat.
Proof.
  intros Hval. destruct fuel as [|fuel]; [discriminate|].
  cbn [_write_varint_loop].
  destruct (Z.eqb_spec (Z.land val (Z.lnot 127)) 0) as [_|E]; cbn [negb].
  - destruct (_bytes val); try discriminate. intros [= <-]. reflexivity.
  - exfalso. apply E, VarintFacts.high_bits_zero, Hval.
Qed.

Lemma _write_varint_loop_more (fuel : nat) (val : Z) (enc : list byte) :
  128 <= val ->
  _write_varint_loop fuel [] val = Ret enc -> (2 <= List.length enc)%nat.
Proof.
  intros Hval. destruct fuel as [|fuel]; [discriminate|].
  cbn [_write_varint_loop].
  destruct (Z.eqb_spec (Z.land val (Z.lnot 127)) 0) as [E|_]; cbn [negb].
  - apply VarintFacts.high_bits_zero in E. lia.
  - destruct (_bytes _) as [b| |]; try discriminate. cbn [bind].
    rewrite SerializeFacts._write_varint_loop_buf.
    destruct (_write_varint_loop fuel [] (Z.shiftr val 7)) as [tail| |] eqn:E;
      try discriminate.
    apply SerializeFacts._write_varint_loop_nonempty in E.
    cbn. intros [= <-]. destruct tail; [congruence|cbn; lia].
Qed.

(** A value below [2 ^ (7 * n)] takes at most [n] bytes. *)
Lemma _write_varint_loop_at_most (n : nat) :
  forall (fuel : nat) (val : Z) (enc : list byte),
    0 <= val < 2 ^ (7 * Z.of_nat (S n)) ->
    _write_varint_loop fuel [] val = Ret enc -> (List.length enc <= S n)%nat.
Proof.
  induction n as [|n IH]; intros fuel val enc Hval Henc.
  - change (2 ^ (7 * Z.of_nat 1)) with 128 in Hval.
    rewrite (_write_varint_loop_one fuel val enc Hval Henc). lia.
  - destruct (Z_lt_ge_dec val 128) as [Hsmall|Hbig].
    + rewrite (_write_varint_loop_one fuel val enc) by (assumption || lia). lia.
    + destruct fuel as [|fuel]; [discriminate|].
      cbn [_write_varint_loop] in Henc.
      destruct (Z.eqb_spec (Z.land val (Z.lnot 127)) 0) as [E|_]; cbn [negb] in Henc.
      { apply VarintFacts.high_bits_zero in E. lia. }
      destruct (_bytes _) as [b| |]; try discriminate. cbn [bind] in Henc.
      rewrite SerializeFacts._write_varint_loop_buf in Henc.
      destruct (_write_varint_loop fuel [] (Z.shiftr val 7)) as [tail| |] eqn:E;
        try discriminate.
      cbn in Henc. injection Henc as <-.
      apply IH in E; [cbn; lia|].
      rewrite Z.shiftr_div_pow2 by lia. split; [apply Z.div_pos; lia|].
      apply Z.div_lt_upper_bound; [lia|].
      rewrite <- Z.pow_add_r by lia.
      replace (7 + 7 * Z.of_nat (S n)) with (7 * Z.of_nat (S (S n))) by lia.
      apply Hval.
Qed.

(** What [_write_varint] does on every input. *)
Lemma _write_varint_outcomes (buf : list byte) (val : Z) (zigzag : bool) :
  (_write_varint buf val zigzag = Diverges <-> zigzag = false /\ val < 0) /\
  (forall e, _write_varint buf val zigzag <> Raise e).
Proof.
  assert (forall v, 0 <= v -> exists enc,
               _write_varint_loop (varint_fuel v) buf v = Ret (buf ++ enc)) as Hret.
  { intros v Hv.
    destruct (VarintFacts._write_varint_loop_decodes (varint_fuel v) buf v)
      as (enc & E & _); [exact Hv|unfold varint_fuel; lia|eauto]. }
  unfold _write_varint. destruct zigzag.
  - destruct (Hret _ (zigzag_any_nonneg val)) as (enc & ->).
    split; [|discriminate]. split; [discriminate|intros [[=] _]].
  - destruct (Z_lt_ge_dec val 0) as [Hneg|Hpos].
    + rewrite VarintFacts._write_varint_loop_negative by exact Hneg.
      split; [tauto|discriminate].
    + destruct (Hret val ltac:(lia)) as (enc & ->).
      split; [|discriminate]. split; [discriminate|lia].
Qed.

End VarintLength.

(** X1: [_write_varint] never raises, and it fails to return in one case
    only: without zig-zag encoding, on a negative value.  With zig-zag
    encoding it returns on every integer, whatever its size. *)
Theorem write_varint_diverges_iff (buf : list byte) (val : Z) (zigzag : bool) :
  (_write_varint buf val zigzag = Diverges <-> zigzag = false /\ val < 0) /\
  (forall e, _write_varint buf val zigzag <> Raise e).
Proof. exact (VarintLength._write_varint_outcomes buf val zigzag). Qed.

(** X2: a signed 64-bit integer (non-negative without zig-zag encoding) is
    written in one to ten bytes, and in exactly one byte when it lies in
    [-64, 63] with zig-zag encoding, in [0, 127] without. *)
Theorem write_varint_length (v : Z) (zigzag : bool) :
  - 2 ^ 63 <= v < 2 ^ 63 ->
  (zigzag = false -> 0 <= v) ->
  exists enc,
    _write_varint [] v zigzag = Ret enc /\
    (1 <= List.length enc <= 10)%nat /\
    (List.length enc = 1%nat <-> if zigzag then - 64 <= v < 64 else v < 128).
Proof.
  intros Hv Hpos.
  set (val := if zigzag then Z.lxor (Z.shiftl v 1) (Z.shiftr v 63) else v).
  assert (0 <= val < 2 ^ 64) as Hval.
  { subst val. destruct zigzag.
    - rewrite VarintLength.zigzag_value by exact Hv.
      destruct (Z.ltb_spec v 0); lia.
    - specialize (Hpos eq_refl). lia. }
  assert (val < 128 <-> if zigzag then - 64 <= v < 64 else v < 128) as Hsmall.
  { subst val. destruct zigzag; [|tauto].
    rewrite VarintLength.zigzag_value by exact Hv.
    destruct (Z.ltb_spec v 0); lia. }
  destruct (VarintFacts._write_varint_loop_decodes (varint_fuel val) [] val)
    as (enc & Henc & Hne & _); [lia|unfold varint_fuel; lia|].
  cbn [app] in Henc. exists enc. split; [exact Henc|]. split.
  - split; [destruct enc; [congruence|cbn; lia]|].
    apply (VarintLength._write_varint_loop_at_most 9 (varint_fuel val) val enc);
      [|exact Henc].
    change (2 ^ (7 * Z.of_nat 10)) with (2 ^ 70). lia.
  - rewrite <- Hsmall. split.
    + intros Hone. destruct (Z_lt_ge_dec val 128) as [?|Hbig]; [assumption|].
      pose proof (VarintLength._write_varint_loop_more (varint_fuel val) val enc
                    ltac:(lia) Henc).
      lia.
    + intros Hlt.
      apply (VarintLength._write_varint_loop_one (varint_fuel val) val enc); [lia|].
      exact Henc.
Qed.

Lemma write_varint_length_witness :
  exists enc,
    _write_varint [] (- 65) true = Ret enc /\
    (1 <= List.length enc <= 10)%nat /\
    (List.length enc = 1%nat <-> - 64 <= - 65 < 64).
Proof.
  apply (write_varint_length (- 65) true); [lia|discriminate].
Defined.

Module DecodeFacts.

(** The decoder's loop stops at the first byte without the continuation
    bit; from a non-negative start it gives a non-negative value. *)
Lemma _decode_varint_loop_cases (buf : list byte) :
  forall value shift, 0 <= value -> 0 <= shift ->
    (List.Forall (fun b => continues b = true) buf
     /\ _decode_varint_loop buf value shift
        = Raise (EOFError "Unexpected EOF encountered"))
    \/ (exists pre b rest v,
           buf = pre ++ b :: rest
           /\ List.Forall (fun b => continues b = true) pre
           /\ continues b = false
           /\ _decode_varint_loop buf value shift = Ret (v, rest)
           /\ 0 <= v).
Proof.
  induction buf as [|b buf IH]; intros value shift Hvalue Hshift.
  - left. split; [constructor|reflexivity].
  - cbn [_decode_varint_loop].
    assert (0 <= Z.lor value (Z.shiftl (Z.land (ord b) 127) shift)) as Hnext.
    { apply Z.lor_nonneg. split; [exact Hvalue|].
      apply Z.shiftl_nonneg. pose proof (VarintFacts.low_bits_range (ord b)). lia. }
    destruct (negb (Z.land (ord b) 128 =? 0)) eqn:Hbit.
    + destruct (IH _ (shift + 7) Hnext ltac:(lia))
        as [[Hall E]|(pre & c & rest & v & -> & Hpre & Hc & E & Hv)].
      * left. split; [constructor; assumption|exact E].
      * right. exists (b :: pre), c, rest, v. repeat split; try assumption.
        constructor; assumption.
    + right. exists [], b, buf, (Z.lor value (Z.shiftl (Z.land (ord b) 127) shift)).
      repeat split; try assumption. constructor.
Qed.

(** [_decode_varint] stops where its loop stops. *)
Lemma _decode_varint_cases (buf : list byte) (zigzag : bool) :
  (List.Forall (fun b => continues b = true) buf
   /\ _decode_varint buf zigzag
      = Raise (EOFError "Unexpected EOF while reading index"))
  \/ (exists pre b rest v,
         buf = pre ++ b :: rest
         /\ List.Forall (fun b => continues b = true) pre
         /\ continues b = false
         /\ _decode_varint buf zigzag = Ret (v, rest)
         /\ (zigzag = false -> 0 <= v)).
Proof.
  unfold _decode_varint.
  destruct (_decode_varint_loop_cases buf 0 0 ltac:(lia) ltac:(lia))
    as [[Hall ->]|(pre & b & rest & v & Hbuf & Hpre & Hb & -> & Hv)].
  - left. split; [exact Hall|reflexivity].
  - right. exists pre, b, rest. eexists. repeat split; try eassumption.
    intros ->. exact Hv.
Qed.

End DecodeFacts.

(** X3: [_decode_varint] reads up to and including the first byte without
    the continuation bit and leaves what follows it.  When every byte has
    the bit, or there is no byte, it raises [EOFError] with the message of
    the index.  Without zig-zag decoding the value read is never negative. *)
Theorem decode_varint_reads_one (buf : list byte) (zigzag : bool) :
  (List.Forall (fun b => continues b = true) buf
   /\ _decode_varint buf zigzag
      = Raise (EOFError "Unexpected EOF while reading index"))
  \/ (exists pre b rest v,
         buf = pre ++ b :: rest
         /\ List.Forall (fun b => continues b = true) pre
         /\ continues b = false
         /\ _decode_varint buf zigzag = Ret (v, rest)
         /\ (zigzag = false -> 0 <= v)).
Proof. exact (DecodeFacts._decode_varint_cases buf zigzag). Qed.

Module IndexCodec.

Lemma encodable_round_trip (zigzag : bool) (v : Z) :
  encodable zigzag v ->
  exists enc,
    _write_varint [] v zigzag = Ret enc /\
    forall rest, _decode_varint (enc ++ rest) zigzag = Ret (v, rest).
Proof.
  destruct zigzag; cbn; intros Hv.
  - exact (VarintFacts._write_varint_zigzag [] v Hv).
  - exact (VarintFacts._write_varint_nonneg [] v Hv).
Qed.

(** The elements written one after the other are read back one after the
    other. *)
Lemma _encode_varints_loop_decodes (zigzag : bool) (ints : list Z) :
  List.Forall (encodable zigzag) ints ->
  exists enc,
    _encode_varints_loop [] ints zigzag = Ret enc /\
    forall rest acc,
      _decode_index_loop (List.length ints) (enc ++ rest) zigzag acc
      = Ret (acc ++ ints, rest).
Proof.
  induction 1 as [|v tl Hv _ (enc_tl & Htl & Hdec)].
  - exists []. split; [reflexivity|]. intros rest acc. cbn.
    rewrite app_nil_r. reflexivity.
  - destruct (encodable_round_trip zigzag v Hv) as (enc_v & Hw & Hr).
    exists (enc_v ++ enc_tl). split.
    + cbn [_encode_varints_loop]. rewrite Hw. cbn [bind].
      rewrite SerializeFacts._encode_varints_loop_buf, Htl. reflexivity.
    + intros rest acc. cbn [List.length _decode_index_loop].
      rewrite <- app_assoc, Hr. cbn [bind]. rewrite Hdec, <- app_assoc.
      reflexivity.
Qed.

(** What [_encode_varints] writes for an index other than [[0]]: the
    length, then the elements. *)
Lemma _encode_varints_parts (zigzag : bool) (ints : list Z) (enc : list byte) :
  ints <> [] -> ints <> [0] ->
  _encode_varints [] ints zigzag = Ret enc ->
  exists enc_n enc_ints,
    _write_varint [] (Z.of_nat (List.length ints)) zigzag = Ret enc_n /\
    _encode_varints_loop [] ints zigzag = Ret enc_ints /\
    enc = enc_n ++ enc_ints.
Proof.
  intros Hne Hnz. unfold _encode_varints.
  destruct (Z.gtb_spec (Z.of_nat (List.length ints)) 0) as [_|Hlen];
    [|destruct ints; [congruence|cbn in Hlen; lia]].
  destruct (decide (ints = [0])); [contradiction|].
  destruct (_write_varint [] _ zigzag) as [enc_n| |]; try discriminate.
  cbn [bind]. rewrite SerializeFacts._encode_varints_loop_buf.
  destruct (_encode_varints_loop [] ints zigzag) as [enc_ints| |];
    try discriminate.
  cbn. intros [= <-]. eauto.
Qed.

(** The loop of [_decode_index] returns as many elements as it was asked
    for, or runs out of bytes. *)
Lemma _decode_index_loop_cases (zigzag : bool) (n : nat) :
  forall buf acc,
    (exists idx consumed rest,
        _decode_index_loop n buf zigzag acc = Ret (idx, rest)
        /\ List.length idx = (List.length acc + n)%nat
        /\ buf = consumed ++ rest)
    \/ _decode_index_loop n buf zigzag acc
       = Raise (EOFError "Unexpected EOF while reading index").
Proof.
  induction n as [|n IH]; intros buf acc; cbn [_decode_index_loop].
  - left. exists acc, [], buf. repeat split. lia.
  - destruct (DecodeFacts._decode_varint_cases buf zigzag)
      as [[_ ->]|(pre & b & rest & v & -> & _ & _ & -> & _)]; [right; reflexivity|].
    cbn [bind].
    destruct (IH rest (acc ++ [v])) as [(idx & consumed & out & -> & Hlen & ->)| ->];
      [|right; reflexivity].
    left. exists idx, (pre ++ b :: consumed), out. repeat split.
    + rewrite Hlen, length_app. cbn. lia.
    + rewrite <- app_assoc. reflexivity.
Qed.

(** The whole index, written and read back. *)
Lemma _encode_varints_decodes (ints : list Z) (zigzag : bool) (rest : list byte) :
  ints <> [] ->
  Z.of_nat (List.length ints) <= 100000 ->
  List.Forall (encodable zigzag) ints ->
  exists enc,
    _encode_varints [] ints zigzag = Ret enc /\
    _decode_index (enc ++ rest) zigzag = Ret (ints, rest).
Proof.
  intros Hne Hlen Hall. unfold _encode_varints.
  destruct (Z.gtb_spec (Z.of_nat (List.length ints)) 0) as [Hpos|Hzero];
    [|destruct ints; [congruence|cbn in Hzero; lia]].
  destruct (decide (ints = [0])) as [->|Hnz].
  - exists [x00]. split; [reflexivity|]. destruct zigzag; reflexivity.
  - assert (encodable zigzag (Z.of_nat (List.length ints))) as Hn
        by (destruct zigzag; cbn; lia).
    destruct (encodable_round_trip zigzag _ Hn) as (enc_n & Hw & Hr).
    destruct (_encode_varints_loop_decodes zigzag ints Hall)
      as (enc_ints & Hloop & Hdec).
    exists (enc_n ++ enc_ints). split.
    + rewrite Hw. cbn [bind].
      rewrite SerializeFacts._encode_varints_loop_buf, Hloop. reflexivity.
    + unfold _decode_index. rewrite <- app_assoc, Hr. cbn [bind].
      destruct (Z.ltb_spec (Z.of_nat (List.length ints)) 0); [lia|].
      destruct (Z.gtb_spec (Z.of_nat (List.length ints)) 100000); [lia|].
      destruct (Z.eqb_spec (Z.of_nat (List.length ints)) 0); [lia|].
      cbn [orb]. rewrite Nat2Z.id. apply Hdec.
Qed.

End IndexCodec.

(** X4: an index of 1 to 100000 elements that the mode carries across is
    written by [_encode_varints] and read back by [_decode_index] in the same
    mode, which leaves the bytes that follow it. *)
Theorem index_round_trip (ints : list Z) (zigzag : bool) (rest : list byte) :
  ints <> [] ->
  Z.of_nat (List.length ints) <= 100000 ->
  List.Forall (encodable zigzag) ints ->
  exists enc,
    _encode_varints [] ints zigzag = Ret enc /\
    _decode_index (enc ++ rest) zigzag = Ret (ints, rest).
Proof. exact (IndexCodec._encode_varints_decodes ints zigzag rest). Qed.

Lemma index_round_trip_witness :
  exists enc,
    _encode_varints [] [2; 0; 5] true = Ret enc /\
    _decode_index (enc ++ [x08; x2a]) true = Ret ([2; 0; 5], [x08; x2a]).
Proof.
  apply index_round_trip; [discriminate|cbn; lia|].
  repeat constructor; cbn; lia.
Defined.

(** X5: the encoder sets no ceiling on the length of an index, the decoder
    does: an index of more than 100000 elements is written, and reading it
    back raises the error of the invalid array length. *)
Theorem index_too_long (ints : list Z) (zigzag : bool) (rest : list byte) :
  100000 < Z.of_nat (List.length ints) < 2 ^ 63 ->
  List.Forall (encodable zigzag) ints ->
  exists enc,
    _encode_varints [] ints zigzag = Ret enc /\
    _decode_index (enc ++ rest) zigzag
    = Raise (DecodeError "Invalid Protobuf msgidx array length").
Proof.
  intros Hlen Hall. unfold _encode_varints.
  destruct (Z.gtb_spec (Z.of_nat (List.length ints)) 0) as [_|]; [|lia].
  destruct (decide (ints = [0])) as [->|Hnz]; [cbn in Hlen; lia|].
  assert (encodable zigzag (Z.of_nat (List.length ints))) as Hn
      by (destruct zigzag; cbn; lia).
  destruct (IndexCodec.encodable_round_trip zigzag _ Hn) as (enc_n & Hw & Hr).
  destruct (IndexCodec._encode_varints_loop_decodes zigzag ints Hall)
    as (enc_ints & Hloop & _).
  exists (enc_n ++ enc_ints). split.
  - rewrite Hw. cbn [bind].
    rewrite SerializeFacts._encode_varints_loop_buf, Hloop. reflexivity.
  - rewrite <- app_assoc.
    apply (DeserializeFacts._decode_index_bad_size _ _ _ _ (Hr _)). lia.
Qed.

Lemma index_too_long_witness :
  exists enc,
    _encode_varints [] (List.repeat 1 (Z.to_nat 100001)) false = Ret enc /\
    _decode_index (enc ++ []) false
    = Raise (DecodeError "Invalid Protobuf msgidx array length").
Proof.
  apply index_too_long.
  - rewrite List.repeat_length. lia.
  - apply List.Forall_forall. intros x Hx.
    apply List.repeat_spec in Hx. subst x. cbn. lia.
Defined.

(** X6: [_decode_index] has three outcomes.  It returns an index of 1 to
    100000 elements together with the bytes it did not read, of which it read
    at least one; or it raises the error of the invalid array length; or it
    raises [EOFError] because the bytes ran out. *)
Theorem decode_index_outcomes (buf : list byte) (zigzag : bool) :
  (exists idx consumed rest,
      _decode_index buf zigzag = Ret (idx, rest)
      /\ 1 <= Z.of_nat (List.length idx) <= 100000
      /\ consumed <> [] /\ buf = consumed ++ rest)
  \/ _decode_index buf zigzag
     = Raise (DecodeError "Invalid Protobuf msgidx array length")
  \/ _decode_index buf zigzag
     = Raise (EOFError "Unexpected EOF while reading index").
Proof.
  unfold _decode_index.
  destruct (DecodeFacts._decode_varint_cases buf zigzag)
    as [[_ ->]|(pre & b & rest & size & -> & _ & _ & -> & _)]; [auto|].
  cbn [bind].
  destruct (Z.ltb_spec size 0); [auto|].
  destruct (Z.gtb_spec size 100000); [auto|]. cbn [orb].
  destruct (Z.eqb_spec size 0) as [->|Hnz].
  - left. exists [0], (pre ++ [b]), rest. repeat split; cbn; try lia.
    + destruct pre; discriminate.
    + rewrite <- app_assoc. reflexivity.
  - destruct (IndexCodec._decode_index_loop_cases zigzag (Z.to_nat size) rest [])
      as [(idx & consumed & out & -> & Hlen & ->)| ->]; [|auto].
    left. exists idx, (pre ++ b :: consumed), out. cbn in Hlen.
    repeat split; try lia.
    + destruct pre; discriminate.
    + rewrite <- app_assoc. reflexivity.
Qed.

Module MixedModes.

(** A length written in one mode and read in the other: twice the length
    one way; half of it or a negative number the other way. *)
Lemma length_read_in_other_mode (n : Z) (zigzag : bool) (enc rest : list byte) :
  0 < n < 2 ^ 63 ->
  _write_varint [] n zigzag = Ret enc ->
  exists size,
    _decode_varint (enc ++ rest) (negb zigzag) = Ret (size, rest) /\ size <> n /\
    size <> 0.
Proof.
  intros Hn Hw. unfold _write_varint in Hw.
  set (val := if zigzag then Z.lxor (Z.shiftl n 1) (Z.shiftr n 63) else n) in Hw.
  assert (val = if zigzag then 2 * n else n) as Hval.
  { subst val. destruct zigzag; [|reflexivity].
    rewrite VarintLength.zigzag_value by lia.
    destruct (Z.ltb_spec n 0); lia. }
  destruct (VarintFacts._write_varint_loop_decodes (varint_fuel val) [] val)
    as (enc' & Henc & _ & Hdec); [destruct zigzag; lia|unfold varint_fuel; lia|].
  cbn [app] in Henc. rewrite Hw in Henc. injection Henc as <-.
  unfold _decode_varint. rewrite Hdec by lia.
  rewrite Z.shiftl_0_r, Z.lor_0_l, Hval.
  destruct zigzag; cbn [negb].
  - exists (2 * n). split; [reflexivity|lia].
  - eexists. split; [reflexivity|].
    rewrite VarintFacts.land_one, Z.shiftr_div_pow2 by lia. change (2 ^ 1) with 2.
    pose proof (Z.mod_pos_bound n 2 ltac:(lia)) as Hmod.
    pose proof (Z.div_mod n 2 ltac:(lia)) as Hdiv.
    assert (n mod 2 = 0 \/ n mod 2 = 1) as [E|E] by lia; rewrite E.
    + change (- 0) with 0. rewrite Z.lxor_0_r. lia.
    + change (- (1)) with (-1). rewrite Z.lxor_m1_r. unfold Z.lnot. lia.
Qed.

End MixedModes.

(** X7: the two formats do not mix.  An index other than [[0]] that is
    written in one mode and read in the other is never read back: if the
    decoder returns at all, the index it returns has another number of
    elements. *)
Theorem formats_do_not_mix (ints : list Z) (zigzag : bool)
    (enc rest : list byte) (idx : list Z) (out : list byte) :
  ints <> [] -> ints <> [0] ->
  Z.of_nat (List.length ints) < 2 ^ 63 ->
  _encode_varints [] ints zigzag = Ret enc ->
  _decode_index (enc ++ rest) (negb zigzag) = Ret (idx, out) ->
  List.length idx <> List.length ints.
Proof.
  intros Hne Hnz Hlen Henc Hdec.
  destruct (IndexCodec._encode_varints_parts zigzag ints enc Hne Hnz Henc)
    as (enc_n & enc_ints & Hw & _ & ->).
  assert (0 < Z.of_nat (List.length ints)) as Hpos
      by (destruct ints; [congruence|cbn; lia]).
  destruct (MixedModes.length_read_in_other_mode (Z.of_nat (List.length ints))
              zigzag enc_n (enc_ints ++ rest) (conj Hpos Hlen) Hw)
    as (size & Hsize & Hdiff & Hnz').
  unfold _decode_index in Hdec. rewrite <- app_assoc, Hsize in Hdec.
  cbn [bind] in Hdec.
  destruct ((size <? 0) || (size >? 100000)) eqn:Hbad; [discriminate|].
  apply orb_false_elim in Hbad as [Hlow _]. apply Z.ltb_ge in Hlow.
  destruct (Z.eqb_spec size 0); [contradiction|].
  destruct (IndexCodec._decode_index_loop_cases (negb zigzag) (Z.to_nat size)
              (enc_ints ++ rest) [])
    as [(idx' & consumed & out' & E & Hlen' & _)|E]; rewrite E in Hdec;
    [|discriminate].
  injection Hdec as <- <-. cbn in Hlen'. lia.
Qed.

(** X7 on the index [[0; 1]] written with zig-zag encoding and followed by
    the payload 0x08 0x2a: read without it, it is an index of four elements
    that has swallowed the payload. *)
Lemma formats_do_not_mix_witness :
  List.length [0; 2; 8; 42] <> List.length [0; 1].
Proof.
  apply (formats_do_not_mix [0; 1] true [x04; x00; x02] [x08; x2a]
           [0; 2; 8; 42] []);
    try discriminate; reflexivity.
Defined.

(** ** The envelope, there and back *)

Module EnvelopeFacts.

(** The header [struct.pack] builds starts with the magic byte. *)
Lemma struct_pack_bI_magic (id : option Z) (header : list byte) :
  struct_pack_bI _MAGIC_BYTE id = Ret header ->
  exists b1 b2 b3 b4, header = [x00; b1; b2; b3; b4].
Proof.
  unfold struct_pack_bI. destruct id as [i|]; [|discriminate].
  change ((-128 <=? _MAGIC_BYTE) && (_MAGIC_BYTE <=? 127)) with true. cbv iota.
  destruct ((0 <=? i) && (i <=? 4294967295)); [|discriminate].
  intros [= <-]. change (byte_of_Z _MAGIC_BYTE) with x00. eauto.
Qed.

End EnvelopeFacts.

(** X8: what the serializer returns, the deserializer reads.  When a
    serialize call returns bytes, a deserializer set to the same format hands
    exactly the message's serialized payload to the protobuf parser, and its
    result is the parser's: the message, or [SerializationError] in place of
    the parser's [DecodeError].  The schema identifier and the index play no
    part in the result.  The index must be one the format carries across,
    of at most 100000 elements. *)
Theorem serialize_then_deserialize {R : Type}
    (self : ProtobufSerializer.t R) (message : Message)
    (ctx : SerializationContext) (w : World R)
    (data : list byte) (self1 : ProtobufSerializer.t R) (w1 : World R)
    (parse : MessageType -> list byte -> outcome Message)
    (reader : ProtobufDeserializer.t) (ctx' : SerializationContext) :
  ProtobufSerializer.__call__ self (Some message) ctx w
  = (Ret (Some data), self1, w1) ->
  ProtobufDeserializer._use_deprecated_format reader
  = ProtobufSerializer._use_deprecated_format self ->
  Z.of_nat (List.length (ProtobufSerializer._msg_index self)) <= 100000 ->
  List.Forall (encodable (negb (ProtobufSerializer._use_deprecated_format self)))
    (ProtobufSerializer._msg_index self) ->
  ProtobufDeserializer.__call__ parse reader (Some data) ctx'
  = match parse (ProtobufDeserializer._msg_class reader)
            (SerializeToString message) with
    | Ret msg => Ret (Some msg)
    | Raise (DecodeError e) => Raise (SerializationError e)
    | Raise e => Raise e
    | Diverges => Diverges
    end.
Proof.
  intros Hcall Hformat Hlen Hall.
  destruct (SerializeFacts.__call___ret _ _ _ _ _ _ _ Hcall)
    as (_ & (_ & _ & Hidx & Hdep) & _ & Henv & _).
  destruct (SerializeFacts.write_envelope_ret _ _ _ Henv)
    as (header & index & Hh & Hi & Hne & Hdata).
  injection Hdata as ->. rewrite <- Hidx, <- Hdep in Hi.
  destruct (EnvelopeFacts.struct_pack_bI_magic _ _ Hh) as (b1 & b2 & b3 & b4 & ->).
  assert (ProtobufSerializer._msg_index self <> []) as Hnonempty.
  { intros E. rewrite E in Hi. discriminate Hi. }
  destruct (IndexCodec._encode_varints_decodes _ _ (SerializeToString message)
              Hnonempty Hlen Hall)
    as (enc & Henc & Hread).
  rewrite Hi in Henc. injection Henc as <-.
  unfold ProtobufDeserializer.__call__.
  destruct (Z.ltb_spec
              (Z.of_nat (List.length ([x00; b1; b2; b3; b4]
                                      ++ index ++ SerializeToString message))) 6)
    as [Hshort|_].
  { rewrite !length_app in Hshort. destruct index; [congruence|].
    cbn in Hshort. lia. }
  cbn [app List.firstn List.skipn struct_unpack_bI]. rewrite List.firstn_O.
  cbn [bind].
  change (List.skipn 0 (index ++ SerializeToString message))
    with (index ++ SerializeToString message).
  change ((if ord x00 <? 128 then ord x00 else ord x00 - 256) =? _MAGIC_BYTE)
    with true.
  cbn [negb]. rewrite Hformat, Hread. reflexivity.
Qed.

(** X8 on the stub store: an order, serialized, is handed back by a parser
    that keeps the payload it is given. *)
Lemma serialize_then_deserialize_witness :
  let ctx := mkSerializationContext "orders" "value" in
  let parse := fun (cls : MessageType) (payload : list byte) =>
                 Ret (mkMessage cls payload) in
  ProtobufDeserializer.__call__ parse
    (ProtobufDeserializer.mk Examples.Order [0] false)
    (Some [x00; x00; x00; x00; x0c; x00; x08; x2a]) ctx
  = Ret (Some Examples.an_order).
Proof.
  intros ctx parse.
  apply (serialize_then_deserialize Examples.order_serializer Examples.an_order
           ctx Examples.world0 [x00; x00; x00; x00; x0c; x00; x08; x2a]
           ((ProtobufSerializer.__call__ Examples.order_serializer
               (Some Examples.an_order) ctx Examples.world0).1).2
           (ProtobufSerializer.__call__ Examples.order_serializer
              (Some Examples.an_order) ctx Examples.world0).2
           parse (ProtobufDeserializer.mk Examples.Order [0] false) ctx).
  - reflexivity.
  - reflexivity.
  - cbn. lia.
  - repeat constructor; cbn; lia.
Defined.

(** ** The index of a descriptor, beyond the shorthand *)

Module PathFacts.

Lemma find_nested_position (l : list nat) (x : nat) :
  forall idx acc found,
    find_nested l x idx acc found
    = match position_of l x idx with
      | Some i => (i :: acc, true)
      | None => (acc, found)
      end.
Proof.
  induction l as [|y rest IH]; intros idx acc found; cbn; [reflexivity|].
  destruct (Nat.eqb y x); [reflexivity|apply IH].
Qed.

Lemma find_root_position (names : list string) (name : string) :
  forall idx acc found,
    find_root names name idx acc found
    = match name_position names name idx with
      | Some i => (i :: acc, true)
      | None => (acc, found)
      end.
Proof.
  induction names as [|n rest IH]; intros idx acc found; cbn; [reflexivity|].
  destruct (String.eqb n name); [reflexivity|apply IH].
Qed.

Lemma position_of_range (l : list nat) (x : nat) :
  forall idx i,
    position_of l x idx = Some i -> idx <= i < idx + Z.of_nat (List.length l).
Proof.
  induction l as [|y rest IH]; intros idx i; cbn [position_of List.length];
    [discriminate|].
  destruct (Nat.eqb y x).
  - intros [= <-]. lia.
  - intros H. apply IH in H. lia.
Qed.

Lemma name_position_range (names : list string) (name : string) :
  forall idx i,
    name_position names name idx = Some i ->
    idx <= i < idx + Z.of_nat (List.length names).
Proof.
  induction names as [|n rest IH]; intros idx i; cbn [name_position List.length];
    [discriminate|].
  destruct (String.eqb n name).
  - intros [= <-]. lia.
  - intros H. apply IH in H. lia.
Qed.

(** On a chain where every enclosing type lists its child, the walk reaches
    the root with the path in front of what it started from. *)
Lemma walk_up_path (d : MessageDescriptor) :
  forall acc found path,
    path_to d = Some path ->
    walk_up d acc found = Ret (root_of d, path ++ acc).
Proof.
  induction d as [id name full_name nested file
                 |id name full_name parent nested file IH]
    using IndexFacts.containing_chain_ind; intros acc found path; cbn.
  - intros [= <-]. reflexivity.
  - destruct (path_to parent) as [up|] eqn:Hup; [|discriminate].
    rewrite find_nested_position.
    destruct (position_of (md_nested_types parent) id 0) as [i|]; [|discriminate].
    intros [= <-]. cbn [negb]. rewrite (IH _ _ up eq_refl), <- app_assoc.
    reflexivity.
Qed.

(** Whatever the chain, the walk only puts positions in front. *)
Lemma walk_up_nonneg (d : MessageDescriptor) :
  forall acc found root out,
    walk_up d acc found = Ret (root, out) ->
    List.Forall (fun i => 0 <= i) acc -> List.Forall (fun i => 0 <= i) out.
Proof.
  induction d as [id name full_name nested file
                 |id name full_name parent nested file IH]
    using IndexFacts.containing_chain_ind; intros acc found root out; cbn.
  - intros [= _ <-]. auto.
  - rewrite find_nested_position.
    destruct (position_of (md_nested_types parent) id 0) as [i|] eqn:Hi.
    + cbn [negb]. intros H Hacc. apply (IH _ _ _ _ H). constructor; [|exact Hacc].
      apply position_of_range in Hi. lia.
    + destruct found; cbn [negb]; [|discriminate]. apply IH.
Qed.

(** Every non-empty list of non-negative integers is written, in both
    formats. *)
Lemma _encode_varints_total (ints : list Z) (zigzag : bool) :
  ints <> [] -> List.Forall (fun i => 0 <= i) ints ->
  exists enc, _encode_varints [] ints zigzag = Ret enc.
Proof.
  intros Hne Hall.
  assert (forall v, 0 <= v -> exists enc, _write_varint [] v zigzag = Ret enc)
    as Hwrite.
  { intros v Hv. destruct (VarintLength._write_varint_outcomes [] v zigzag) as [Hdiv Hraise].
    destruct (_write_varint [] v zigzag) as [enc|e|] eqn:E; [eauto| |].
    - destruct (Hraise e). reflexivity.
    - destruct Hdiv as [Hdiv _]. destruct (Hdiv eq_refl). lia. }
  assert (exists enc, _encode_varints_loop [] ints zigzag = Ret enc) as (tail & Htail).
  { clear Hne. induction Hall as [|v tl Hv _ (enc & IH)]; [exists []; reflexivity|].
    destruct (Hwrite v Hv) as (e & He). cbn [_encode_varints_loop].
    rewrite He. cbn [bind]. rewrite SerializeFacts._encode_varints_loop_buf, IH.
    eexists. reflexivity. }
  unfold _encode_varints.
  destruct (Z.gtb_spec (Z.of_nat (List.length ints)) 0) as [_|Hz];
    [|destruct ints; [congruence|cbn in Hz; lia]].
  destruct (decide (ints = [0])); [eexists; reflexivity|].
  destruct (Hwrite (Z.of_nat (List.length ints)) ltac:(lia)) as (e & ->).
  cbn [bind]. rewrite SerializeFacts._encode_varints_loop_buf, Htail.
  eexists. reflexivity.
Qed.

End PathFacts.

(** X9: on a descriptor whose enclosing types each list the type they
    enclose, and whose outermost type is named in the file,
    [_create_msg_index] returns the position of the outermost type among the
    file's message types followed by the positions that lead down to the
    descriptor, each the first position of the child in its parent's nested
    types. *)
Theorem create_msg_index_is_the_path (msg_desc : MessageDescriptor)
    (path : list Z) (r : Z) :
  path_to msg_desc = Some path ->
  name_position (fd_message_types_by_name (md_file msg_desc))
    (md_name (root_of msg_desc)) 0 = Some r ->
  _create_msg_index msg_desc = Ret (r :: path) /\
  0 <= r < Z.of_nat (List.length (fd_message_types_by_name (md_file msg_desc))) /\
  List.Forall (fun i => 0 <= i) path.
Proof.
  intros Hpath Hroot. unfold _create_msg_index.
  pose proof (PathFacts.walk_up_path msg_desc [] false path Hpath) as Hwalk.
  rewrite app_nil_r in Hwalk. rewrite Hwalk. cbn [bind].
  rewrite PathFacts.find_root_position, Hroot. cbn [negb].
  split; [reflexivity|]. split.
  - apply PathFacts.name_position_range in Hroot. lia.
  - apply (PathFacts.walk_up_nonneg _ _ _ _ _ Hwalk). constructor.
Qed.

Lemma create_msg_index_is_the_path_witness :
  _create_msg_index Examples.item = Ret [0; 1] /\
  0 <= 0 < Z.of_nat (List.length ["Order"; "Invoice"]%string) /\
  List.Forall (fun i => 0 <= i) [1].
Proof.
  apply (create_msg_index_is_the_path Examples.item [1] 0); reflexivity.
Defined.

(** X10: an index that [_create_msg_index] returns is never empty and holds
    no negative number, so [_encode_varints] writes it in both formats: the
    assertion holds and no varint loops for ever. *)
Theorem created_index_is_written (msg_desc : MessageDescriptor)
    (msg_index : list Z) (zigzag : bool) (buf : list byte) :
  _create_msg_index msg_desc = Ret msg_index ->
  msg_index <> [] /\
  List.Forall (fun i => 0 <= i) msg_index /\
  exists enc, _encode_varints buf msg_index zigzag = Ret (buf ++ enc).
Proof.
  unfold _create_msg_index.
  destruct (walk_up msg_desc [] false) as [[root out]| |] eqn:Hwalk;
    try discriminate.
  cbn [bind]. rewrite PathFacts.find_root_position.
  destruct (name_position _ _ 0) as [r|] eqn:Hr; cbn [negb]; [|discriminate].
  intros [= <-].
  assert (List.Forall (fun i => 0 <= i) (r :: out)) as Hall.
  { constructor.
    - apply PathFacts.name_position_range in Hr. lia.
    - apply (PathFacts.walk_up_nonneg _ _ _ _ _ Hwalk). constructor. }
  split; [discriminate|]. split; [exact Hall|].
  destruct (PathFacts._encode_varints_total (r :: out) zigzag ltac:(discriminate) Hall)
    as (enc & Henc).
  exists enc. rewrite SerializeFacts._encode_varints_buf, Henc. reflexivity.
Qed.

Lemma created_index_is_written_witness :
  [0; 1] <> [] /\
  List.Forall (fun i => 0 <= i) [0; 1] /\
  exists enc, _encode_varints [x00] [0; 1] false = Ret ([x00] ++ enc).
Proof.
  apply (created_index_is_written Examples.item [0; 1] false [x00]). reflexivity.
Defined.

(** ** The calls to the store *)

Module StoreFacts.

(** Induction on a file with the property at hand for each of its
    dependencies. *)
Lemma FileDescriptor_deps_ind (P : FileDescriptor -> Prop) :
  (forall name pb deps types,
      List.Forall P deps -> P (mkFileDescriptor name pb deps types)) ->
  forall file_desc, P file_desc.
Proof.
  intros H. fix IH 1. intros [name pb deps types]. apply H.
  induction deps as [|dep rest IHrest]; constructor; [apply IH|exact IHrest].
Qed.

Lemma visits_eq (skip : FileDescriptor -> bool) (file_desc : FileDescriptor) :
  visits skip file_desc = visits_each skip (fd_dependencies file_desc).
Proof.
  destruct file_desc as [name pb deps types]. cbn [fd_dependencies visits].
  induction deps as [|dep rest IH]; [reflexivity|].
  cbn [visits_each]. rewrite IH. reflexivity.
Qed.

Section Asks.
Context {R : Type}.
Variable Q : StoreCall -> Prop.

Lemma asks_sret {A : Type} (a : A) : asks Q (@sret R A a).
Proof.
  intros w. exists []. cbn. rewrite app_nil_r.
  split; [reflexivity|]. split; constructor.
Qed.

Lemma asks_sbind {A B : Type} (m : Store R A) (k : A -> Store R B) :
  asks Q m -> (forall a, asks Q (k a)) -> asks Q (sbind m k).
Proof.
  intros Hm Hk w. unfold sbind.
  destruct (Hm w) as (cs1 & Hc1 & HQ1 & Hf1).
  destruct (m w) as [[a|e|] w']; cbn [fst snd failure] in *.
  - destruct (Hk a w') as (cs2 & Hc2 & HQ2 & Hf2).
    exists (cs1 ++ cs2). rewrite Hc2, Hc1, app_assoc.
    split; [reflexivity|]. split; [apply Forall_app; split; assumption|].
    destruct (failure (fst (k a w'))) as [f|]; cbn [fails_with_store] in *.
    + destruct Hf2 as (init & c & -> & Hinit & Hc).
      exists (cs1 ++ init), c. rewrite app_assoc.
      split; [reflexivity|]. split; [apply Forall_app; split; assumption|exact Hc].
    + apply Forall_app; split; assumption.
  - exists cs1. auto.
  - exists cs1. auto.
Qed.

(** One call, whatever the store answers. *)
Lemma asks_one {A : Type} (c : StoreCall) (answer : outcome A) (w : World R)
    (st : R) :
  Q c -> call_failure c = failure answer ->
  exists cs,
    calls (mkWorld st (calls w ++ [c])) = calls w ++ cs /\
    List.Forall Q cs /\
    fails_with_store (failure answer) cs.
Proof.
  intros HQ Hc. exists [c]. split; [reflexivity|].
  split; [constructor; [exact HQ|constructor]|].
  destruct (failure answer) as [f|] eqn:E; cbn [fails_with_store].
  - exists [], c. split; [reflexivity|]. split; [constructor|exact Hc].
  - constructor; [exact Hc|constructor].
Qed.

Lemma asks_call_register_schema (registry : SchemaRegistryClient R)
    (subject : string) (schema : Schema) (normalize : bool) :
  (forall answer, Q (Call_register_schema subject schema normalize answer)) ->
  asks Q (call_register_schema registry subject schema normalize).
Proof.
  intros HQ w. unfold call_register_schema.
  destruct (register_schema registry subject schema normalize (store w))
    as [answer st].
  cbn [fst snd]. apply asks_one; [apply HQ|reflexivity].
Qed.

Lemma asks_call_lookup_schema (registry : SchemaRegistryClient R)
    (subject : string) (schema : Schema) (normalize : bool) :
  (forall answer, Q (Call_lookup_schema subject schema normalize answer)) ->
  asks Q (call_lookup_schema registry subject schema normalize).
Proof.
  intros HQ w. unfold call_lookup_schema.
  destruct (lookup_schema registry subject schema normalize (store w))
    as [answer st].
  cbn [fst snd]. apply asks_one; [apply HQ|reflexivity].
Qed.

Lemma asks_call_get_latest_version (registry : SchemaRegistryClient R)
    (subject : string) :
  (forall answer, Q (Call_get_latest_version subject answer)) ->
  asks Q (call_get_latest_version registry subject).
Proof.
  intros HQ w. unfold call_get_latest_version.
  destruct (get_latest_version registry subject (store w)) as [answer st].
  cbn [fst snd]. apply asks_one; [apply HQ|reflexivity].
Qed.

End Asks.

Lemma asks_weaken {R A : Type} (P Q : StoreCall -> Prop) (m : Store R A) :
  (forall c, P c -> Q c) -> asks P m -> asks Q m.
Proof.
  intros HPQ Hm w. destruct (Hm w) as (cs & Hc & HP & Hf).
  exists cs. split; [exact Hc|]. split; [|exact Hf].
  eapply List.Forall_impl; [exact HPQ|exact HP].
Qed.

Section Resolve.
Context {R : Type}.
Variables (self : ProtobufSerializer.t R) (ctx : SerializationContext).

Let subject_for (dep : FileDescriptor) : string :=
  ProtobufSerializer._ref_reference_subject_func self ctx (ArgFile dep).

(** The loop asks what the resolution of each dependency asks, then
    registers and looks up the dependency. *)
Lemma asks_for_dep (deps : list FileDescriptor) :
  List.Forall
    (fun dep => asks (dependency_call self) (_resolve_dependencies self ctx dep))
    deps ->
  forall schema_refs,
    asks (dependency_call self) (for_dep self ctx deps schema_refs).
Proof.
  induction 1 as [|dep rest Hdep _ IH]; intros schema_refs; cbn [for_dep].
  - apply asks_sret.
  - destruct (skips self dep); [apply IH|].
    apply asks_sbind; [exact Hdep|]. intros dep_refs. cbv zeta.
    apply asks_sbind.
    + destruct (ProtobufSerializer._auto_register self) eqn:Hauto;
        [|apply asks_sret].
      apply asks_sbind; [|intros _; apply asks_sret].
      apply asks_call_register_schema. intros answer. exact Hauto.
    + intros _. apply asks_sbind; [|intros reference; apply IH].
      apply asks_call_lookup_schema. intros answer. exact I.
Qed.

Lemma asks__resolve_dependencies (file_desc : FileDescriptor) :
  asks (dependency_call self) (_resolve_dependencies self ctx file_desc).
Proof.
  induction file_desc as [name pb deps types IH] using FileDescriptor_deps_ind.
  intros w. rewrite DependencyFacts._resolve_dependencies_eq.
  apply (asks_for_dep deps IH []).
Qed.

(** The references the loop adds: one for each dependency it does not
    pass over, in order. *)
Lemma for_dep_references (deps : list FileDescriptor) :
  forall schema_refs w refs w1,
    for_dep self ctx deps schema_refs w = (Ret refs, w1) ->
    exists added,
      refs = schema_refs ++ added /\
      List.map ref_name added
      = List.map fd_name (List.filter (fun dep => negb (skips self dep)) deps) /\
      List.map ref_subject added
      = List.map subject_for (List.filter (fun dep => negb (skips self dep)) deps).
Proof.
  induction deps as [|dep rest IH]; intros schema_refs w refs w1; cbn [for_dep].
  - intros [= <- <-]. exists []. rewrite app_nil_r. repeat split.
  - cbn [List.filter]. destruct (skips self dep); cbn [negb]; [apply IH|].
    unfold sbind at 1.
    destruct (_resolve_dependencies self ctx dep w) as [[dep_refs|e|] w'];
      try discriminate.
    cbv zeta. unfold sbind at 1.
    destruct ((if ProtobufSerializer._auto_register self
               then sbind (call_register_schema _ _ _ false) (fun _ => sret tt)
               else sret tt) w') as [[[]|e|] w''];
      try discriminate.
    unfold sbind at 1.
    destruct (call_lookup_schema _ _ _ false w'') as [[reference|e|] w'''];
      try discriminate.
    intros H. apply IH in H as (added & -> & Hnames & Hsubjects).
    eexists (_ :: added). rewrite <- app_assoc. split; [reflexivity|].
    cbn [List.map ref_name ref_subject]. rewrite Hnames, Hsubjects.
    split; reflexivity.
Qed.

(** The calls of the loop when it returns: those of the walk. *)
Lemma for_dep_operations (deps : list FileDescriptor) :
  List.Forall
    (fun dep =>
       forall w refs w1,
         _resolve_dependencies self ctx dep w = (Ret refs, w1) ->
         exists cs,
           calls w1 = calls w ++ cs /\
           List.map (fun c => (call_operation c, call_subject c)) cs
           = List.flat_map
               (fun d => dependency_operations
                           (ProtobufSerializer._auto_register self) (subject_for d))
               (visits (skips self) dep))
    deps ->
  forall schema_refs w refs w1,
    for_dep self ctx deps schema_refs w = (Ret refs, w1) ->
    exists cs,
      calls w1 = calls w ++ cs /\
      List.map (fun c => (call_operation c, call_subject c)) cs
      = List.flat_map
          (fun d => dependency_operations
                      (ProtobufSerializer._auto_register self) (subject_for d))
          (visits_each (skips self) deps).
Proof.
  induction 1 as [|dep rest Hdep _ IH]; intros schema_refs w refs w1;
    cbn [for_dep visits_each].
  - intros [= <- <-]. exists []. rewrite app_nil_r. split; reflexivity.
  - destruct (skips self dep); [apply IH|].
    unfold sbind at 1.
    destruct (_resolve_dependencies self ctx dep w) as [[dep_refs|e|] w'] eqn:E;
      try discriminate.
    destruct (Hdep _ _ _ E) as (cs1 & Hc1 & Hops1).
    cbv zeta. fold (subject_for dep).
    rewrite List.flat_map_app. cbn [List.flat_map]. rewrite <- Hops1.
    unfold dependency_operations at 2.
    destruct (ProtobufSerializer._auto_register self).
    + unfold sbind at 1. unfold sbind at 1. unfold call_register_schema at 1.
      destruct (register_schema _ _ _ false (store w')) as [[id|e|] st];
        try discriminate.
      unfold sret at 1. unfold sbind at 1. unfold call_lookup_schema at 1.
      cbn [store calls].
      destruct (lookup_schema _ _ _ false st) as [[reference|e|] st'];
        try discriminate.
      intros H. apply IH in H as (cs2 & Hc2 & Hops2). cbn [calls] in Hc2.
      eexists (cs1 ++ _ :: _ :: cs2). split.
      * rewrite Hc2, Hc1, <- !app_assoc. reflexivity.
      * rewrite List.map_app.
        cbn [List.map call_operation call_subject app].
        rewrite Hops2, <- ?app_assoc. reflexivity.
    + unfold sbind at 1. unfold sret at 1. unfold sbind at 1.
      unfold call_lookup_schema at 1.
      destruct (lookup_schema _ _ _ false (store w')) as [[reference|e|] st'];
        try discriminate.
      intros H. apply IH in H as (cs2 & Hc2 & Hops2). cbn [calls] in Hc2.
      eexists (cs1 ++ _ :: cs2). split.
      * rewrite Hc2, Hc1, <- !app_assoc. reflexivity.
      * rewrite List.map_app.
        cbn [List.map call_operation call_subject app].
        rewrite Hops2, <- ?app_assoc. reflexivity.
Qed.

Lemma _resolve_dependencies_operations (file_desc : FileDescriptor) :
  forall w refs w1,
    _resolve_dependencies self ctx file_desc w = (Ret refs, w1) ->
    exists cs,
      calls w1 = calls w ++ cs /\
      List.map (fun c => (call_operation c, call_subject c)) cs
      = List.flat_map
          (fun d => dependency_operations
                      (ProtobufSerializer._auto_register self) (subject_for d))
          (visits (skips self) file_desc).
Proof.
  induction file_desc as [name pb deps types IH] using FileDescriptor_deps_ind.
  intros w refs w1. rewrite DependencyFacts._resolve_dependencies_eq, visits_eq.
  apply (for_dep_operations deps IH []).
Qed.

End Resolve.

End StoreFacts.

(** X11: [_resolve_dependencies] only adds to the log of calls; it asks
    the store for lookups and, when schemas are registered automatically,
    for registrations, never for a latest version; and it has no failure of
    its own: when it raises, or does not return, so did the last call it
    made, and every call before that one was answered. *)
Theorem resolve_dependencies_fails_with_the_store {R : Type}
    (self : ProtobufSerializer.t R) (ctx : SerializationContext)
    (file_desc : FileDescriptor) (w : World R) :
  let result := _resolve_dependencies self ctx file_desc w in
  exists cs,
    calls (snd result) = calls w ++ cs /\
    List.Forall (dependency_call self) cs /\
    fails_with_store (failure (fst result)) cs.
Proof. exact (StoreFacts.asks__resolve_dependencies self ctx file_desc w). Qed.

(** X12: the references [_resolve_dependencies] returns are those of the
    direct dependencies it does not pass over, one each and in declared
    order: the name is the dependency's file name, the subject is what the
    reference strategy gives for the dependency.  What a dependency imports
    in turn adds no reference. *)
Theorem references_of_direct_dependencies {R : Type}
    (self : ProtobufSerializer.t R) (ctx : SerializationContext)
    (file_desc : FileDescriptor) (w : World R)
    (refs : list SchemaReference) (w1 : World R) :
  _resolve_dependencies self ctx file_desc w = (Ret refs, w1) ->
  List.map ref_name refs = List.map fd_name (kept self file_desc) /\
  List.map ref_subject refs
  = List.map
      (fun dep => ProtobufSerializer._ref_reference_subject_func self ctx (ArgFile dep))
      (kept self file_desc).
Proof.
  rewrite DependencyFacts._resolve_dependencies_eq. intros H.
  apply StoreFacts.for_dep_references in H as (added & -> & Hnames & Hsubjects).
  cbn [app]. split; assumption.
Qed.

Lemma references_of_direct_dependencies_witness :
  let ctx := mkSerializationContext "orders" "value" in
  let result :=
    _resolve_dependencies Examples.order_serializer ctx Examples.a_proto
      Examples.world0 in
  List.map ref_name (match fst result with Ret refs => refs | _ => [] end)
  = ["b.proto"; "c.proto"]%string /\
  List.map ref_subject (match fst result with Ret refs => refs | _ => [] end)
  = ["b.proto"; "c.proto"]%string.
Proof.
  intros ctx result.
  apply (references_of_direct_dependencies Examples.order_serializer ctx
           Examples.a_proto Examples.world0 _ (snd result)).
  reflexivity.
Defined.

(** X13: when [_resolve_dependencies] returns, the calls it has made are
    those of a depth-first walk of the imports: for each import, what the
    import imports first, then the import itself, registered (when schemas
    are registered automatically) and then looked up under the subject of
    the reference strategy.  A file imported along two paths is asked about
    once for each path. *)
Theorem resolve_dependencies_walks_the_imports {R : Type}
    (self : ProtobufSerializer.t R) (ctx : SerializationContext)
    (file_desc : FileDescriptor) (w : World R)
    (refs : list SchemaReference) (w1 : World R) :
  _resolve_dependencies self ctx file_desc w = (Ret refs, w1) ->
  exists cs,
    calls w1 = calls w ++ cs /\
    List.map (fun c => (call_operation c, call_subject c)) cs
    = List.flat_map
        (fun dep =>
           dependency_operations (ProtobufSerializer._auto_register self)
             (ProtobufSerializer._ref_reference_subject_func self ctx (ArgFile dep)))
        (visits (skips self) file_desc).
Proof. apply StoreFacts._resolve_dependencies_operations. Qed.

Lemma resolve_dependencies_walks_the_imports_witness :
  let ctx := mkSerializationContext "orders" "value" in
  let result :=
    _resolve_dependencies Examples.order_serializer ctx Examples.a_proto
      Examples.world0 in
  exists cs,
    calls (snd result) = calls Examples.world0 ++ cs /\
    List.map (fun c => (call_operation c, call_subject c)) cs
    = [ (Register, "d.proto"); (Lookup, "d.proto");
        (Register, "b.proto"); (Lookup, "b.proto");
        (Register, "c.proto"); (Lookup, "c.proto") ]%string.
Proof.
  intros ctx result.
  apply (resolve_dependencies_walks_the_imports Examples.order_serializer ctx
           Examples.a_proto Examples.world0
           (match fst result with Ret refs => refs | _ => [] end) (snd result)).
  reflexivity.
Defined.

(** ** A call and the store *)

Module CallFacts.

Section FirstUse.
Context {R : Type}.
Implicit Types (self : ProtobufSerializer.t R) (message : Message).

Lemma dependency_call_permitted self (c : StoreCall) :
  ProtobufSerializer._use_latest_version self = false ->
  dependency_call self c -> permitted self c.
Proof. intros Hl. destruct c; cbn; tauto. Qed.

(** One more call after calls that were answered. *)
Lemma one_more_call {A : Type} self (w w' : World R) (cs1 : list StoreCall)
    (c : StoreCall) (answer : outcome A) (st : R) (latest : bool) :
  calls w' = calls w ++ cs1 ->
  List.Forall (permitted self) cs1 ->
  List.Forall answered cs1 ->
  permitted self c ->
  call_failure c = failure answer ->
  latest = false ->
  exists cs,
    calls (mkWorld st (calls w' ++ [c])) = calls w ++ cs /\
    List.Forall (permitted self) cs /\
    (latest = true -> (List.length cs <= 1)%nat) /\
    fails_with_store (failure answer) cs.
Proof.
  intros Hc1 HQ1 Hf1 HQ Hc Hl. exists (cs1 ++ [c]). cbn [calls].
  rewrite Hc1, <- app_assoc. split; [reflexivity|].
  split; [apply Forall_app; split; [exact HQ1|constructor; [exact HQ|constructor]]|].
  split; [rewrite Hl; discriminate|].
  destruct (failure answer) as [f|]; cbn [fails_with_store].
  - exists cs1, c. auto.
  - apply Forall_app; split; [exact Hf1|constructor; [exact Hc|constructor]].
Qed.

(** A first use asks what the settings permit and fails only as the store
    does. *)
Lemma first_use_asks self message ctx (subject : string) (w : World R) :
  exists cs,
    calls (snd (first_use self message ctx subject w)) = calls w ++ cs /\
    List.Forall (permitted self) cs /\
    (ProtobufSerializer._use_latest_version self = true ->
     (List.length cs <= 1)%nat) /\
    fails_with_store (failure (fst (fst (first_use self message ctx subject w)))) cs.
Proof.
  unfold first_use.
  destruct (ProtobufSerializer._use_latest_version self) eqn:Hl.
  - unfold after, call_get_latest_version.
    destruct (get_latest_version _ subject (store w)) as [answer st].
    exists [Call_get_latest_version subject answer].
    destruct answer as [r|e|]; cbn [fst snd calls failure fails_with_store];
      (split; [reflexivity|]);
      (split; [constructor; [exact Hl|constructor]|]);
      (split; [intros _; cbn; lia|]).
    + constructor; [reflexivity|constructor].
    + exists [], (Call_get_latest_version subject (Raise e)).
      split; [reflexivity|]. split; [constructor|reflexivity].
    + exists [], (Call_get_latest_version subject Diverges).
      split; [reflexivity|]. split; [constructor|reflexivity].
  - destruct (StoreFacts.asks__resolve_dependencies self ctx
                (md_file (DESCRIPTOR (msg_type message))) w)
      as (cs1 & Hc1 & HQ1 & Hf1).
    assert (List.Forall (permitted self) cs1) as HP1.
    { eapply List.Forall_impl; [|exact HQ1].
      intros c. apply dependency_call_permitted. exact Hl. }
    destruct (_resolve_dependencies self ctx _ w) as [[refs|e|] w'];
      cbn [after fst snd failure] in *.
    + cbn [ProtobufSerializer._auto_register set_schema_references
           ProtobufSerializer._registry ProtobufSerializer._schema
           ProtobufSerializer._normalize_schemas].
      destruct (ProtobufSerializer._auto_register self) eqn:Hauto.
      * unfold call_register_schema.
        destruct (register_schema _ subject _ _ (store w')) as [answer st].
        destruct answer as [id|e|]; cbn [after fst snd];
          apply (one_more_call self w w' cs1); cbn; auto.
      * unfold call_lookup_schema.
        destruct (lookup_schema _ subject _ _ (store w')) as [answer st].
        destruct answer as [r|e|]; cbn [after fst snd];
          apply (one_more_call self w w' cs1); cbn; auto.
    + exists cs1. split; [assumption|]. split; [assumption|].
      split; [discriminate|assumption].
    + exists cs1. split; [assumption|]. split; [assumption|].
      split; [discriminate|assumption].
Qed.

(** What a first use writes: the configuration is kept; when it returns
    the subject is known; when it fails the known subjects and the schema
    identifier are as they were. *)
Lemma first_use_frame self message ctx (subject : string) (w : World R) :
  keeps_configuration self (snd (fst (first_use self message ctx subject w))) /\
  match failure (fst (fst (first_use self message ctx subject w))) with
  | None =>
      ProtobufSerializer._known_subjects
        (snd (fst (first_use self message ctx subject w)))
      = ProtobufSerializer._known_subjects self ∪ {[ subject ]}
  | Some _ =>
      ProtobufSerializer._known_subjects
        (snd (fst (first_use self message ctx subject w)))
      = ProtobufSerializer._known_subjects self /\
      ProtobufSerializer._schema_id
        (snd (fst (first_use self message ctx subject w)))
      = ProtobufSerializer._schema_id self
  end.
Proof.
  unfold first_use, after.
  destruct (ProtobufSerializer._use_latest_version self).
  - destruct (call_get_latest_version _ subject w) as [[r|e|] w'];
      cbn; repeat split.
  - destruct (_resolve_dependencies self ctx _ w) as [[refs|e|] w'];
      [|cbn; repeat split..].
    cbn [ProtobufSerializer._auto_register set_schema_references
         ProtobufSerializer._registry ProtobufSerializer._schema
         ProtobufSerializer._normalize_schemas].
    destruct (ProtobufSerializer._auto_register self).
    + destruct (call_register_schema _ subject _ _ w') as [[id|e|] w''];
        cbn; repeat split.
    + destruct (call_lookup_schema _ subject _ _ w') as [[r|e|] w''];
        cbn; repeat split.
Qed.

End FirstUse.

End CallFacts.

(** X14: the calls of [__call__] to the store.  A call only adds to the
    log; it asks for the latest version only when [use.latest.version] is
    set, and then for nothing else and at most once; it registers only when
    [auto.register.schemas] is set and [use.latest.version] is not.  Nothing
    is asked after a call the store did not answer: either every call was
    answered, or [__call__] fails as its last call to the store did. *)
Theorem call_asks_what_the_settings_permit {R : Type}
    (self : ProtobufSerializer.t R) (message_type : option Message)
    (ctx : SerializationContext) (w : World R) :
  let result := ProtobufSerializer.__call__ self message_type ctx w in
  exists cs,
    calls (snd result) = calls w ++ cs /\
    List.Forall (permitted self) cs /\
    (ProtobufSerializer._use_latest_version self = true ->
     (List.length cs <= 1)%nat) /\
    (List.Forall answered cs \/ fails_with_store (failure (fst (fst result))) cs).
Proof.
  cbv zeta. unfold ProtobufSerializer.__call__.
  assert (exists cs : list StoreCall,
             calls w = calls w ++ cs /\
             List.Forall (permitted self) cs /\
             (ProtobufSerializer._use_latest_version self = true ->
              (List.length cs <= 1)%nat) /\
             List.Forall answered cs) as Hnone.
  { exists []. rewrite app_nil_r. repeat split; try constructor. cbn. lia. }
  destruct Hnone as (cs0 & H0 & HQ0 & Hl0 & Ha0).
  destruct message_type as [message|]; [|exists cs0; cbn; auto].
  destruct (isinstance message (ProtobufSerializer._msg_class self));
    cbn [negb]; [|exists cs0; cbn; auto].
  destruct (bool_decide _); cbn [negb].
  - destruct (write_envelope self message); exists cs0; cbn; auto.
  - destruct (CallFacts.first_use_asks self message ctx
                (subject_of self message ctx) w) as (cs & Hc & HQ & Hl & Hf).
    destruct (first_use self message ctx (subject_of self message ctx) w)
      as [[[[]|e|] self'] w']; cbn [fst snd failure] in *;
      exists cs; auto.
Qed.

(** X15: what [__call__] writes.  The configuration of the serializer is
    kept: of its attributes only the known subjects, the schema identifier
    and the references of the schema can change.  The known subjects stay as
    they are or gain the subject of the message, nothing else.  When the
    subject is not known after the call, the call has failed, and the known
    subjects and the schema identifier are as they were before it, so that
    the next call starts over. *)
Theorem call_writes_cache_identifier_and_references {R : Type}
    (self : ProtobufSerializer.t R) (message : Message)
    (ctx : SerializationContext) (w : World R) :
  let result := ProtobufSerializer.__call__ self (Some message) ctx w in
  let self1 := snd (fst result) in
  let subject := subject_of self message ctx in
  keeps_configuration self self1 /\
  (ProtobufSerializer._known_subjects self1 = ProtobufSerializer._known_subjects self
   \/ ProtobufSerializer._known_subjects self1
      = ProtobufSerializer._known_subjects self ∪ {[ subject ]}) /\
  (subject ∉ ProtobufSerializer._known_subjects self1 ->
   failure (fst (fst result)) <> None /\
   ProtobufSerializer._known_subjects self1 = ProtobufSerializer._known_subjects self /\
   ProtobufSerializer._schema_id self1 = ProtobufSerializer._schema_id self).
Proof.
  cbv zeta. unfold ProtobufSerializer.__call__.
  destruct (isinstance message (ProtobufSerializer._msg_class self));
    cbn [negb]; [|cbn; repeat split; auto; discriminate].
  destruct (decide (subject_of self message ctx
                    ∈ ProtobufSerializer._known_subjects self)) as [Hk|Hk].
  - rewrite (bool_decide_eq_true_2 _ Hk). cbn [negb fst snd].
    split; [repeat split|]. split; [left; reflexivity|].
    intros Hnot. contradiction.
  - rewrite (bool_decide_eq_false_2 _ Hk). cbn [negb].
    destruct (CallFacts.first_use_frame self message ctx
                (subject_of self message ctx) w) as (Hkeep & Hcache).
    destruct (first_use self message ctx (subject_of self message ctx) w)
      as [[[[]|e|] self'] w']; cbn [fst snd failure] in *.
    + split; [exact Hkeep|]. split; [right; exact Hcache|].
      intros Hnot. exfalso. apply Hnot. rewrite Hcache.
      apply elem_of_union. right. apply elem_of_singleton. reflexivity.
    + destruct Hcache as (Hknown & Hid).
      split; [exact Hkeep|]. split; [left; exact Hknown|].
      intros _. split; [discriminate|]. split; assumption.
    + destruct Hcache as (Hknown & Hid).
      split; [exact Hkeep|]. split; [left; exact Hknown|].
      intros _. split; [discriminate|]. split; assumption.
Qed.

(** X16: once the subject of a message is known, the call is repeatable.
    If a call leaves the subject among the known ones, the same call on the
    serializer it leaves gives the same outcome, the same bytes or the same
    error, leaves the serializer as it is and asks the store nothing,
    whatever the store now holds.  So an error raised after the subject was
    recorded, as for a schema identifier that does not fit the header, is
    raised again by every later call. *)
Theorem known_subject_repeats_the_outcome {R : Type}
    (self : ProtobufSerializer.t R) (message : Message)
    (ctx : SerializationContext) (w : World R)
    (o : outcome (option (list byte))) (self1 : ProtobufSerializer.t R)
    (w1 w2 : World R) :
  ProtobufSerializer.__call__ self (Some message) ctx w = (o, self1, w1) ->
  subject_of self message ctx ∈ ProtobufSerializer._known_subjects self1 ->
  ProtobufSerializer.__call__ self1 (Some message) ctx w2 = (o, self1, w2).
Proof.
  unfold ProtobufSerializer.__call__ at 1.
  destruct (isinstance message (ProtobufSerializer._msg_class self)) eqn:Hinst;
    cbn [negb].
  - destruct (decide (subject_of self message ctx
                      ∈ ProtobufSerializer._known_subjects self)) as [Hk|Hk].
    + rewrite (bool_decide_eq_true_2 _ Hk). cbn [negb].
      intros H _.
      assert (o = write_envelope self message /\ self1 = self) as [-> ->]
          by (destruct (write_envelope self message); injection H as <- <- <-;
              split; reflexivity).
      apply SerializeFacts.__call___known; assumption.
    + rewrite (bool_decide_eq_false_2 _ Hk). cbn [negb].
      destruct (CallFacts.first_use_frame self message ctx
                  (subject_of self message ctx) w) as (Hkeep & Hcache).
      destruct (first_use self message ctx (subject_of self message ctx) w)
        as [[[[]|e|] self'] w']; cbn [fst snd failure] in *.
      * intros H Hknown.
        assert (o = write_envelope self' message /\ self1 = self') as [-> ->]
            by (destruct (write_envelope self' message); injection H as <- <- <-;
                split; reflexivity).
        destruct Hkeep as (_ & _ & _ & _ & _ & Hclass & _ & _ & _ & _ & Hname & _).
        apply SerializeFacts.__call___known.
        -- rewrite Hclass. exact Hinst.
        -- unfold subject_of in *. rewrite Hname. exact Hknown.
      * intros [= <- <- <-] Hknown. destruct Hcache as (Hsame & _).
        rewrite Hsame in Hknown. contradiction.
      * intros [= <- <- <-] Hknown. destruct Hcache as (Hsame & _).
        rewrite Hsame in Hknown. contradiction.
  - intros [= <- <- <-] _. unfold ProtobufSerializer.__call__.
    rewrite Hinst. reflexivity.
Qed.

(** X16 on a store whose identifiers do not fit the four bytes of the
    header: the first call records the subject and raises the error of
    [struct.pack]; the second raises it again, asking nothing. *)
Lemma known_subject_repeats_the_outcome_witness :
  let ctx := mkSerializationContext "orders" "value" in
  let big_store :=
    mkSchemaRegistryClient nat
      (fun _ _ _ n => (Ret (2 ^ 32), S n))
      (fun _ _ _ n => (Ret (mkRegisteredSchema (2 ^ 32) 1), S n))
      (fun _ n => (Ret (mkRegisteredSchema (2 ^ 32) 1), S n)) in
  let self :=
    ProtobufSerializer.mk true false false false big_store ∅ Examples.Order [0]
      (mkSchema (_schema_to_str Examples.shop_proto) "PROTOBUF" []) None
      Examples.by_file_name Examples.by_topic false in
  let first := ProtobufSerializer.__call__ self (Some Examples.an_order) ctx
                 Examples.world0 in
  failure (fst (fst first)) <> None /\
  ProtobufSerializer.__call__ (snd (fst first)) (Some Examples.an_order) ctx
    (snd first)
  = (fst (fst first), snd (fst first), snd first).
Proof.
  intros ctx big_store self first. split; [vm_compute; discriminate|].
  apply (known_subject_repeats_the_outcome self Examples.an_order ctx
           Examples.world0 (fst (fst first)) (snd (fst first)) (snd first)
           (snd first)).
  - reflexivity.
  - apply (bool_decide_eq_true_1 _). vm_compute. reflexivity.
Defined.
